(** * libtock-c: the HOTP token application and the synchronous alarm service

    A shallow embedding of
      - [libtock-sync/services/alarm.c]  (tick conversion, timed wait), and
      - [examples/tutorials/hotp/hotp_oracle_complete/main.c]
        (credential slots, key-value persistence, HOTP generation, the
        button dispatcher),
    followed by the properties established about them.

    Machine integers are [Z] with the wrap-around written out; byte
    buffers are [list Z]; the global [keys] array is a list accessed
    through a bounds-checked monad; drivers that live outside these two
    files appear as an explicit environment record. *)

From Stdlib Require Import ZArith Lia List Ascii String.
From stdpp Require Import base list strings gmap.

Local Open Scope Z_scope.

(** ** Fixed-width arithmetic *)

Definition wrap (bits : Z) (x : Z) : Z := x mod 2 ^ bits.
Definition u8  (x : Z) : Z := wrap 8 x.
Definition u32 (x : Z) : Z := wrap 32 x.
Definition u64 (x : Z) : Z := wrap 64 x.

Definition UINT32_MAX : Z := 2 ^ 32 - 1.

Definition RETURNCODE_SUCCESS : Z := 0.
Definition RETURNCODE_FAIL : Z := -1.

(** ** libtock-sync/services/alarm.c *)

Module Alarm.

(** [ms_to_ticks]: the alarm frequency is what
    [libtock_alarm_command_get_frequency] stores in [frequency]; the
    result is [None] when the [assert] aborts the process. *)
Definition ms_to_ticks (frequency : Z) (ms : Z) : option Z :=
  let seconds := u32 (ms / 10) in
  let leftover_millis := u32 (ms mod 1000) in
  let milliseconds_per_second := 1000 in
  let ticks := u64 (seconds * frequency) in
  let ticks := u64 (ticks + u64 (leftover_millis * frequency) / milliseconds_per_second) in
  if ticks <=? UINT32_MAX then Some (u32 ticks) else None.

(** The conversion as the documentation of [ms_to_ticks] describes it:
    whole seconds times the frequency plus the scaled remainder. *)
Definition ms_to_ticks_documented (frequency : Z) (ms : Z) : Z :=
  (ms / 1000) * frequency + ((ms mod 1000) * frequency) / 1000.

(** What the environment answers to the two alarm syscalls of
    [libtocksync_alarm_delay_ms]. *)
Record delay_env := {
  set_relative_blind_rc : Z -> Z;   (* libtock_alarm_command_set_relative_blind *)
  yield_wait_for_data0 : Z          (* yval.data0 of yield_wait_for *)
}.

Inductive delay_result :=
| DelayAborted                       (* assertion failure inside ms_to_ticks *)
| DelayReturned (armed_ticks : Z) (waited : bool) (rc : Z).

Definition libtocksync_alarm_delay_ms (frequency : Z) (e : delay_env) (ms : Z)
  : delay_result :=
  match ms_to_ticks frequency ms with
  | None => DelayAborted
  | Some ticks =>
      let rc := set_relative_blind_rc e ticks in
      if negb (rc =? RETURNCODE_SUCCESS) then DelayReturned ticks false rc
      else
        if negb (yield_wait_for_data0 e =? RETURNCODE_SUCCESS)
        then DelayReturned ticks true (yield_wait_for_data0 e)
        else DelayReturned ticks true rc
  end.

(** State touched by [libtocksync_alarm_yield_for_with_timeout]:
    the caller's flag [*cond], the file-level [yf_timeout_data.fired],
    and whether the one-shot alarm armed by the call is still pending. *)
Record bridge := {
  cond : bool;
  fired : bool;
  alarm_pending : bool
}.

(** One callback dispatched by a single [yield()]. *)
Inductive upcall :=
| UpTimer              (* the armed alarm expires *)
| UpCond (b : bool)    (* some callback stores [b] into [*cond] *)
| UpOther.             (* an unrelated callback *)

Definition yf_timeout_cb (s : bridge) : bridge :=
  {| cond := cond s; fired := true; alarm_pending := alarm_pending s |}.

(** Modelled from the spec: [libtock_alarm_in_ms] and
    [libtock_alarm_cancel] (libtock/services/alarm.c is not among the
    sources) arm and disarm a one-shot timer; an expiring timer leaves
    the pending set and then runs its callback. *)
Definition libtock_alarm_in_ms (s : bridge) : bridge :=
  {| cond := cond s; fired := fired s; alarm_pending := true |}.

Definition libtock_alarm_cancel (s : bridge) : bridge :=
  {| cond := cond s; fired := fired s; alarm_pending := false |}.

(** Modelled from the spec: [yield()] runs exactly one pending callback. *)
Definition yield (u : upcall) (s : bridge) : bridge :=
  match u with
  | UpTimer =>
      if alarm_pending s
      then yf_timeout_cb {| cond := cond s; fired := fired s; alarm_pending := false |}
      else s
  | UpCond b => {| cond := b; fired := fired s; alarm_pending := alarm_pending s |}
  | UpOther => s
  end.

(** The [while (!*cond)] loop.  The schedule lists the callbacks the
    kernel will deliver, one per [yield()]; [None] means the call is
    still suspended when the schedule is used up. *)
Fixpoint wait_loop (sched : list upcall) (s : bridge)
  : option (Z * bridge * list upcall) :=
  if negb (cond s) then
    if fired s then Some (RETURNCODE_FAIL, s, sched)
    else
      match sched with
      | [] => None
      | u :: sched' => wait_loop sched' (yield u s)
      end
  else Some (RETURNCODE_SUCCESS, libtock_alarm_cancel s, sched).

Definition libtocksync_alarm_yield_for_with_timeout
           (sched : list upcall) (s : bridge)
  : option (Z * bridge * list upcall) :=
  let s := {| cond := cond s; fired := false; alarm_pending := alarm_pending s |} in
  let s := libtock_alarm_in_ms s in
  wait_loop sched s.

End Alarm.

(** ** examples/tutorials/hotp/hotp_oracle_complete/main.c *)

Module Hotp.

(** *** Data *)

Definition NUM_KEYS : Z := 4.

(** [int key_digits[NUM_KEYS] = {6, 6, 7, 8};] *)
Definition key_digits : list Z := [6; 6; 7; 8].

(** [hotp_key_t] (packed): a [uint8_t] length, a 16-byte iv, a 64-byte
    key buffer and the [uint64_t] counter. *)
Record hotp_key_t := {
  len : Z;
  iv : list Z;
  key : list Z;
  counter : Z
}.

Definition SIZEOF_HOTP_KEY_T : Z := 89.

Definition set_len (r : hotp_key_t) (v : Z) : hotp_key_t :=
  {| len := u8 v; iv := iv r; key := key r; counter := counter r |}.

Definition set_counter (r : hotp_key_t) (v : Z) : hotp_key_t :=
  {| len := len r; iv := iv r; key := key r; counter := u64 v |}.

Definition set_cipher (r : hotp_key_t) (k i : list Z) : hotp_key_t :=
  {| len := len r; iv := i; key := k; counter := counter r |}.

(** An [n]-byte buffer holding [l] (cut or zero-filled to size). *)
Definition buffer (n : nat) (l : list Z) : list Z :=
  u8 <$> take n (l ++ replicate n 0).

(** Zero-initialised global storage. *)
Definition zero_key : hotp_key_t :=
  {| len := 0; iv := replicate 16 0; key := replicate 64 0; counter := 0 |}.

(** *** Console output, observable events *)

Inductive message :=
| MsgUsage
| MsgError (ret : Z)                    (* "ERROR(%i): %s." *)
| MsgCouldNotStore                      (* "  Could not store key." *)
| MsgHmacFailure (ret : Z)              (* "HMAC failure: %d" *)
| MsgCannotDecode                       (* "ERROR cannot base32 decode secret" *)
| MsgCannotEncrypt                      (* "ERROR cannot encrypt key" *)
| MsgProgrammed (secret : string) (slot : Z)
| MsgProgramPrompt (slot : Z)
| MsgCancelHint
| MsgEcho (s : string)                  (* putnstr *)
| MsgAborted
| MsgUsbError (ret : Z)
| MsgCounterTyped (c : Z) (code : string)
| MsgCode (code : string)               (* "CODE: %s" *)
| MsgNotConfigured (slot : Z)
| MsgInitKeysError
| MsgInitButtonsError.

Inductive hmac_call :=
| HmacSetCallback (registered : bool)
| HmacSetKeyBuffer (allowed : bool)
| HmacSetDestBuffer (allowed : bool)
| HmacSetDataBuffer (allowed : bool)
| HmacSetAlgorithm
| HmacRun.

Inductive event :=
| EvPrint (m : message)
| EvLed (on : bool) (n : Z)
| EvKvGet (k : string) (ret : Z) (value_len : Z)
| EvKvSet (k : string) (value : list Z) (ret : Z)
| EvEncrypt (ret : Z)
| EvDecrypt (ret : Z)
| EvHmac (c : hmac_call) (ret : Z)
| EvUsbSend (s : string) (ret : Z)
| EvButtonEnable (i : Z)
| EvDelayMs (ms : Z).

(** *** The drivers and helpers outside this file

    Each answer may depend on everything observed so far (the trace),
    so that faults can come and go. *)
Record Env := {
  (* kv_get_sync / kv_set_sync: driver status; 0 lets the store act *)
  kv_get_rc : list event -> string -> Z;
  kv_set_rc : list event -> string -> list Z -> Z;
  (* base32.h: return value and the bytes written to the output *)
  base32_decode : string -> Z * list Z;
  (* oracle.h encrypt: plaintext, its length, old output buffer, old iv;
     gives the return value, the output buffer and the iv afterwards *)
  encrypt : list event -> list Z -> Z -> list Z -> list Z -> Z * list Z * list Z;
  (* oracle.h decrypt: iv, ciphertext, its length; return value and the
     64-byte output buffer afterwards *)
  decrypt : list event -> list Z -> list Z -> Z -> Z * list Z;
  (* the HMAC driver: status of each call, and the digest it delivers *)
  hmac_rc : list event -> hmac_call -> Z;
  hmac_digest : list Z -> Z -> list Z -> list Z;
  (* what an uninitialised 32-byte stack buffer happens to hold *)
  stack_garbage : list event -> list Z;
  (* driver_exists(DRIVER_NUM_USBKEYBOARDHID), usb_keyboard_hid_send_string_sync *)
  usb_exists : list event -> bool;
  usb_send_rc : list event -> string -> Z;
  (* button_subscribe, button_count *)
  button_subscribe_rc : Z;
  button_count : Z * Z
}.

(** *** Program state *)

Record world := {
  keys : list hotp_key_t;           (* hotp_key_t keys[NUM_KEYS] *)
  kv : gmap string (list Z);        (* the key-value store *)
  stdin : list ascii;               (* console input still to come *)
  trace : list event                (* what has happened, oldest first *)
}.

Definition with_keys (w : world) (ks : list hotp_key_t) : world :=
  {| keys := ks; kv := kv w; stdin := stdin w; trace := trace w |}.
Definition with_kv (w : world) (m : gmap string (list Z)) : world :=
  {| keys := keys w; kv := m; stdin := stdin w; trace := trace w |}.
Definition with_stdin (w : world) (i : list ascii) : world :=
  {| keys := keys w; kv := kv w; stdin := i; trace := trace w |}.
Definition log (w : world) (es : list event) : world :=
  {| keys := keys w; kv := kv w; stdin := stdin w; trace := trace w ++ es |}.

(** How a computation ends: normally, by indexing [keys] outside its
    bounds (undefined behaviour in C), or suspended for ever waiting
    for input. *)
Inductive outcome (A : Type) :=
| Done (a : A) (w : world)
| MemFault (idx : Z) (w : world)
| Blocked (w : world).
Arguments Done {A} a w.
Arguments MemFault {A} idx w.
Arguments Blocked {A} w.

Definition M (A : Type) : Type := world -> outcome A.

#[export] Instance M_ret : MRet M := fun A a w => Done a w.
#[export] Instance M_bind : MBind M := fun A B f m w =>
  match m w with
  | Done a w' => f a w'
  | MemFault i w' => MemFault i w'
  | Blocked w' => Blocked w'
  end.

Definition emit (e : event) : M unit := fun w => Done tt (log w [e]).
Definition print (m : message) : M unit := emit (EvPrint m).
Definition history : M (list event) := fun w => Done (trace w) w.

Definition in_bounds (i : Z) : bool := (0 <=? i) && (i <? NUM_KEYS).

(** [keys[i]] read and written. *)
Definition keys_load (i : Z) : M hotp_key_t := fun w =>
  if in_bounds i then
    match keys w !! Z.to_nat i with
    | Some r => Done r w
    | None => MemFault i w
    end
  else MemFault i w.

Definition keys_store (i : Z) (r : hotp_key_t) : M unit := fun w =>
  if in_bounds i && bool_decide (Z.to_nat i < length (keys w))%nat
  then Done tt (with_keys w (<[Z.to_nat i := r]> (keys w)))
  else MemFault i w.

(** [key_digits[i]]. *)
Definition key_digits_load (i : Z) : M Z := fun w =>
  if in_bounds i then
    match key_digits !! Z.to_nat i with
    | Some d => Done d w
    | None => MemFault i w
    end
  else MemFault i w.

(** *** Text and byte formats *)

Definition digit_char (d : Z) : ascii := ascii_of_N (Z.to_N (48 + d)).

(** Decimal digits of a non-negative number, most significant first. *)
Fixpoint decimal_digits (fuel : nat) (n : Z) : string :=
  match fuel with
  | O => EmptyString
  | S fuel' =>
      if n <? 10 then String (digit_char n) EmptyString
      else decimal_digits fuel' (n / 10) +:+ String (digit_char (n mod 10)) EmptyString
  end.

Definition decimal (n : Z) : string :=
  decimal_digits (S (Z.to_nat (Z.log2 n))) n.

(** ["%i"] *)
Definition format_i (i : Z) : string :=
  if i <? 0 then "-" +:+ decimal (- i) else decimal i.

Fixpoint zeros (n : nat) : string :=
  match n with
  | O => EmptyString
  | S n' => String "0" (zeros n')
  end.

(** ["%.*ld"]: at least [precision] digits, zero-filled on the left;
    the value 0 with precision 0 prints nothing. *)
Definition format_ld (precision : Z) (v : Z) : string :=
  let digits :=
    if (v =? 0) && (precision =? 0) then EmptyString else decimal (Z.abs v) in
  let padded :=
    zeros (Z.to_nat precision - String.length digits) +:+ digits in
  if v <? 0 then "-" +:+ padded else padded.

(** [snprintf(buf, size, ...)]: the buffer receives at most [size - 1]
    characters and a terminator; the return value is the full length. *)
Definition snprintf (size : nat) (s : string) : string * Z :=
  (substring 0 (size - 1) s, Z.of_nat (String.length s)).

(** A [uint32_t] handed to a [long] conversion (32-bit target). *)
Definition long_of_u32 (x : Z) : Z := if x <? 2 ^ 31 then x else x - 2 ^ 32.

(** ["hotp-key-%i"] *)
Definition kv_key_name (slot_num : Z) : string := "hotp-key-" +:+ format_i slot_num.

Definition le_bytes (n : Z) (x : Z) : list Z :=
  (fun i => Z.land (Z.shiftr x (8 * i)) 255) <$> seqZ 0 n.

Fixpoint le_value (bs : list Z) : Z :=
  match bs with
  | [] => 0
  | b :: bs' => b + 256 * le_value bs'
  end.

(** [memcpy(value, &keys[slot_num], sizeof(hotp_key_t))] on the packed
    little-endian layout, and its inverse. *)
Definition serialize (r : hotp_key_t) : list Z :=
  u8 (len r) :: buffer 16 (iv r) ++ buffer 64 (key r) ++ le_bytes 8 (counter r).

Definition deserialize (value : list Z) : hotp_key_t :=
  let value := buffer 89 value in
  {| len := nth 0 value 0;
     iv := take 16 (drop 1 value);
     key := take 64 (drop 17 value);
     counter := le_value (take 8 (drop 81 value)) |}.

Definition is_newline (c : ascii) : bool :=
  let n := Z.of_N (N_of_ascii c) in (n =? 10) || (n =? 13).

Definition isalnum (c : ascii) : bool :=
  let n := Z.of_N (N_of_ascii c) in
  ((48 <=? n) && (n <=? 57)) || ((65 <=? n) && (n <=? 90)) || ((97 <=? n) && (n <=? 122)).

(** *** HOTP arithmetic of [get_next_code] *)

(** [moving_factor[i] = (counter >> ((sizeof(counter_t) - i - 1) * 8)) & 0xFF] *)
Definition moving_factor_of (c : Z) : list Z :=
  (fun i => Z.land (Z.shiftr c ((8 - i - 1) * 8)) 255) <$> seqZ 0 8.

Definition byte_at (buf : list Z) (i : Z) : Z := nth (Z.to_nat i) buf 0.

(** [offset] and [S] before the modulus. *)
Definition truncate_offset (hmac_output_buf : list Z) : Z :=
  u8 (Z.land (byte_at hmac_output_buf (32 - 1)) 15).

Definition truncate_S (hmac_output_buf : list Z) : Z :=
  let offset := truncate_offset hmac_output_buf in
  u32 (Z.lor (Z.lor (Z.lor
    (Z.shiftl (Z.land (byte_at hmac_output_buf offset) 127) 24)
    (Z.shiftl (Z.land (byte_at hmac_output_buf (offset + 1)) 255) 16))
    (Z.shiftl (Z.land (byte_at hmac_output_buf (offset + 2)) 255) 8))
    (Z.land (byte_at hmac_output_buf (offset + 3)) 255)).

(** [(uint32_t) pow(10, digits)]: the power is an exact double for the
    digit counts in use. *)
Definition pow10 (digits : Z) : Z := u32 (10 ^ digits).

(** The digits of the code and the clamped [len], as computed after the
    counter was saved. *)
Definition format_code (digits : Z) (S0 : Z) : string * Z :=
  let S1 := S0 mod pow10 digits in
  let '(hotp_format_buffer, len) := snprintf 16 (format_ld digits (long_of_u32 S1)) in
  let len := if len <? 0 then 0 else if len >? 16 then 16 else len in
  (hotp_format_buffer, len).

Definition RETURNCODE_ENOSUPPORT : Z := -10.

Section Program.

Variable E : Env.

(** *** Collaborators *)

(** Modelled from the spec: the key-value driver ([kv_get_sync],
    [kv_set_sync]) is not among the sources.  [get] finds the value
    stored under the key or fails; [set] replaces it or fails and
    leaves the store as it was. *)
Definition kv_get_sync (k : string) (bufsize : Z) : M (Z * list Z * Z) := fun w =>
  let rc := kv_get_rc E (trace w) k in
  let '(ret, value, value_len) :=
    if negb (rc =? 0) then (rc, [], 0)
    else
      match kv w !! k with
      | None => (RETURNCODE_ENOSUPPORT, [], 0)
      | Some v => (RETURNCODE_SUCCESS, take (Z.to_nat bufsize) v, u32 (Z.of_nat (length v)))
      end in
  Done (ret, value, value_len) (log w [EvKvGet k ret value_len]).

Definition kv_set_sync (k : string) (value : list Z) : M Z := fun w =>
  let rc := kv_set_rc E (trace w) k value in
  let store := if rc =? 0 then <[k := value]> (kv w) else kv w in
  Done rc (log (with_kv w store) [EvKvSet k value rc]).

Definition hmac_driver (c : hmac_call) : M Z :=
  h ← history;
  let rc := hmac_rc E h c in
  emit (EvHmac c rc);; mret rc.

Definition encrypt_call (plaintext : list Z) (plen : Z) (out iv0 : list Z)
  : M (Z * list Z * list Z) :=
  h ← history;
  let '(ret, out', iv') := encrypt E h plaintext plen out iv0 in
  emit (EvEncrypt ret);; mret (ret, buffer 64 out', buffer 16 iv').

Definition decrypt_call (iv0 cipher : list Z) (clen : Z) : M (Z * list Z) :=
  h ← history;
  let '(ret, out) := decrypt E h iv0 cipher clen in
  emit (EvDecrypt ret);; mret (ret, buffer 64 out).

(** *** Persistent key handling *)

Definition save_key (slot_num : Z) : M unit :=
  let key_name := kv_key_name slot_num in
  r ← keys_load slot_num;
  let value := serialize r in
  ret ← kv_set_sync key_name value;
  if negb (ret =? 0) then
    print (MsgError ret);; print MsgCouldNotStore
  else mret tt.

(** *** HMAC handling *)

Definition deregister_upcall (ret : Z) (out : list Z) : M (Z * list Z) :=
  hmac_driver (HmacSetCallback false);; mret (ret, out).

Definition unallow_key_buffer (ret : Z) (out : list Z) : M (Z * list Z) :=
  hmac_driver (HmacSetKeyBuffer false);; deregister_upcall ret out.

Definition unallow_dest_buffer (ret : Z) (out : list Z) : M (Z * list Z) :=
  hmac_driver (HmacSetDestBuffer false);; unallow_key_buffer ret out.

Definition unallow_data_buffer (ret : Z) (out : list Z) : M (Z * list Z) :=
  hmac_driver (HmacSetDataBuffer false);; unallow_dest_buffer ret out.

(** [hmac]: returns [ret] and the contents of [output_buffer]
    afterwards.  [yield_for(&hmac_done)] is taken to complete, and the
    engine has then written its digest into the destination buffer. *)
Definition hmac (key0 : list Z) (key_len : Z) (data : list Z)
           (output_buffer : list Z) : M (Z * list Z) :=
  ret ← hmac_driver (HmacSetCallback true);
  if ret <? 0 then mret (ret, output_buffer) else
  ret ← hmac_driver (HmacSetKeyBuffer true);
  if ret <? 0 then deregister_upcall ret output_buffer else
  ret ← hmac_driver (HmacSetDestBuffer true);
  if ret <? 0 then unallow_key_buffer ret output_buffer else
  ret ← hmac_driver (HmacSetDataBuffer true);
  if ret <? 0 then unallow_dest_buffer ret output_buffer else
  ret ← hmac_driver HmacSetAlgorithm;
  if ret <? 0 then unallow_data_buffer ret output_buffer else
  ret ← hmac_driver HmacRun;
  if ret <? 0 then
    print (MsgHmacFailure ret);; unallow_data_buffer ret output_buffer
  else
    unallow_data_buffer ret
      (buffer (length output_buffer) (hmac_digest E key0 key_len data)).

(** *** HOTP actions *)

Definition program_secret (slot_num : Z) (secret : string) : M unit :=
  let '(ret, plaintext_key) := base32_decode E secret in
  if ret <? 0 then
    print MsgCannotDecode;;
    r ← keys_load slot_num;
    keys_store slot_num (set_len r 0)
  else
    r ← keys_load slot_num;
    '(ret, key', iv') ← encrypt_call plaintext_key ret (key r) (iv r);
    keys_store slot_num (set_cipher r key' iv');;
    if ret <? 0 then
      print (MsgError ret);;
      print MsgCannotEncrypt;;
      r ← keys_load slot_num;
      keys_store slot_num (set_len r 0)
    else
      r ← keys_load slot_num;
      keys_store slot_num (set_counter (set_len r ret) 0);;
      save_key slot_num;;
      print (MsgProgrammed secret slot_num).

Definition program_default_secret : M unit :=
  emit (EvLed true 0);;
  let default_secret := "test" in
  program_secret 0 default_secret;;
  emit (EvLed false 0).

(** The input loop of [program_new_secret], [getch()] taking the next
    character of the console input: [i] characters are in [newkey];
    reading stops at Enter or at 127 characters; [None] when the console
    runs dry before that. *)
Fixpoint read_newkey (input : list ascii) (i : nat) (newkey : string)
         (echo : list event) : option (string * list ascii * list event) :=
  if (127 <=? i)%nat then Some (newkey, input, echo)
  else
    match input with
    | [] => None
    | c :: input' =>
        if is_newline c then Some (newkey, input', echo)
        else if isalnum c then
          read_newkey input' (S i) (newkey +:+ String c EmptyString)
                      (echo ++ [EvPrint (MsgEcho (String c EmptyString))])
        else read_newkey input' i newkey echo
    end.

Definition read_line : M string := fun w =>
  match read_newkey (stdin w) 0 EmptyString [] with
  | None => Blocked (with_stdin w [])
  | Some (newkey, rest, echo) => Done newkey (log (with_stdin w rest) echo)
  end.

Definition program_new_secret (slot_num : Z) : M unit :=
  emit (EvLed true slot_num);;
  print (MsgProgramPrompt slot_num);;
  print MsgCancelHint;;
  newkey ← read_line;
  print (MsgEcho "\r\n");;
  if bool_decide (newkey = EmptyString) then
    print MsgAborted;;
    emit (EvLed false slot_num)
  else
    program_secret slot_num newkey;;
    emit (EvLed false slot_num).

(** One iteration of the loop of [initialize_keys]. *)
Definition load_key (i : Z) : M unit :=
  '(ret, value, value_len) ← kv_get_sync (kv_key_name i) SIZEOF_HOTP_KEY_T;
  if negb (ret =? RETURNCODE_SUCCESS) || negb (value_len =? SIZEOF_HOTP_KEY_T) then
    r ← keys_load i;
    keys_store i (set_len r 0);;
    save_key i;;
    if i =? 0 then program_default_secret else mret tt
  else
    keys_store i (deserialize value).

Fixpoint for_each (l : list Z) (body : Z -> M unit) : M unit :=
  match l with
  | [] => mret tt
  | i :: l' => body i;; for_each l' body
  end.

Definition initialize_keys : M Z :=
  for_each (seqZ 0 NUM_KEYS) load_key;;
  mret RETURNCODE_SUCCESS.

(** [get_next_code].  The return values of [decrypt] and [hmac] are not
    inspected by the source; [hmac_output_buf] starts out uninitialised.
    On the console path [hotp_format_buffer[len] = 0] cuts the text at
    [len], which stays below 16 for a 32-bit value and at most 8 digits
    of precision. *)
Definition get_next_code (slot_num : Z) : M unit :=
  emit (EvLed true slot_num);;
  r ← keys_load slot_num;
  '(keylen, key0) ← decrypt_call (iv r) (key r) (len r);
  let moving_factor := moving_factor_of (counter r) in
  h ← history;
  let hmac_output_buf := buffer 32 (stack_garbage E h) in
  '(_, hmac_output_buf) ← hmac key0 keylen moving_factor hmac_output_buf;
  r ← keys_load slot_num;
  keys_store slot_num (set_counter r (counter r + 1));;
  save_key slot_num;;
  let S0 := truncate_S hmac_output_buf in
  digits ← key_digits_load slot_num;
  let '(hotp_format_buffer, len) := format_code digits S0 in
  h ← history;
  (if usb_exists E h then
     let typed := substring 0 (Z.to_nat len) hotp_format_buffer in
     h ← history;
     let ret := usb_send_rc E h typed in
     emit (EvUsbSend typed ret);;
     if ret <? 0 then print (MsgUsbError ret)
     else
       r ← keys_load slot_num;
       print (MsgCounterTyped (u32 (u32 (counter r) - 1)) hotp_format_buffer)
   else
     print (MsgCode (substring 0 (Z.to_nat len) hotp_format_buffer)));;
  emit (EvLed false slot_num).

(** *** Buttons and the main loop *)

(** [button_upcall] acting on [pressed_btn_num] and the flag [*ud]. *)
Definition button_upcall (num val : Z) (st : Z * bool) : Z * bool :=
  if val =? 1 then (num, true) else st.

Definition initialize_buttons : M Z :=
  let err := button_subscribe_rc E in
  if negb (err =? RETURNCODE_SUCCESS) then mret err else
  let '(err, count) := button_count E in
  if negb (err =? RETURNCODE_SUCCESS) then mret err else
  for_each (seqZ 0 count) (fun i => emit (EvButtonEnable i));;
  mret RETURNCODE_SUCCESS.

(** A button event as the loop sees it: the index given to the
    upcall with [val = 1], and what [button_read] reports half a
    second later. *)
Record press := {
  press_num : Z;
  press_new_val : Z
}.

(** The body of [while (true)] once [yield_for(&button_pressed)] has
    returned. *)
Definition main_loop_body (p : press) (pressed_btn_num : Z) : M Z :=
  let '(pressed_btn_num, _) := button_upcall (press_num p) 1 (pressed_btn_num, false) in
  let btn_num := pressed_btn_num in
  emit (EvDelayMs 500);;
  let new_val := press_new_val p in
  (if negb (new_val =? 0) then
     program_new_secret btn_num
   else
     configured ← (if btn_num <? NUM_KEYS
                   then r ← keys_load btn_num; mret (len r >? 0)
                   else mret false);
     if configured : bool then get_next_code btn_num
     else
       r ← keys_load btn_num;
       if len r =? 0 then print (MsgNotConfigured btn_num) else mret tt);;
  mret pressed_btn_num.

(** The loop itself never leaves: when no further press arrives it
    stays suspended in [yield_for]. *)
Fixpoint main_loop (presses : list press) (pressed_btn_num : Z) : M Z :=
  match presses with
  | [] => fun w => Blocked w
  | p :: presses' =>
      pressed_btn_num ← main_loop_body p pressed_btn_num;
      main_loop presses' pressed_btn_num
  end.

Definition main (presses : list press) : M Z :=
  print MsgUsage;;
  ret ← initialize_keys;
  if negb (ret =? RETURNCODE_SUCCESS) then
    print MsgInitKeysError;; mret 1
  else
    ret ← initialize_buttons;
    if negb (ret =? RETURNCODE_SUCCESS) then
      print MsgInitButtonsError;; mret 1
    else main_loop presses 0.

End Program.

(** The state at process start: globals zeroed, nothing printed. *)
Definition boot (store : gmap string (list Z)) (input : list ascii) : world :=
  {| keys := replicate 4 zero_key; kv := store; stdin := input; trace := [] |}.

(** *** Concrete environments

    A well-behaved board (every driver succeeds, no USB keyboard, five
    buttons) and variants of it with a single fault, used to run the
    program on explicit inputs. *)

Definition demo_digest : list Z := [0; 0; 4; 210] ++ replicate 28 0.

Definition demo_env : Env :=
  {| kv_get_rc := fun _ _ => 0;
     kv_set_rc := fun _ _ _ => 0;
     base32_decode := fun s =>
       if bool_decide (s = "test") then (2, [153; 37]) else (-1, []);
     encrypt := fun _ plaintext plen _ _ =>
       (16, take (Z.to_nat plen) plaintext, replicate 16 7);
     decrypt := fun _ _ cipher _ => (2, take 2 cipher);
     hmac_rc := fun _ _ => 0;
     hmac_digest := fun _ _ _ => demo_digest;
     stack_garbage := fun _ => replicate 32 170;
     usb_exists := fun _ => false;
     usb_send_rc := fun _ _ => 0;
     button_subscribe_rc := 0;
     button_count := (0, 5) |}.

Definition failing_store (e : Env) (rc : Z) : Env :=
  {| kv_get_rc := kv_get_rc e;
     kv_set_rc := fun _ _ _ => rc;
     base32_decode := base32_decode e;
     encrypt := encrypt e;
     decrypt := decrypt e;
     hmac_rc := hmac_rc e;
     hmac_digest := hmac_digest e;
     stack_garbage := stack_garbage e;
     usb_exists := usb_exists e;
     usb_send_rc := usb_send_rc e;
     button_subscribe_rc := button_subscribe_rc e;
     button_count := button_count e |}.

Definition failing_hmac_run (e : Env) (rc : Z) : Env :=
  {| kv_get_rc := kv_get_rc e;
     kv_set_rc := kv_set_rc e;
     base32_decode := base32_decode e;
     encrypt := encrypt e;
     decrypt := decrypt e;
     hmac_rc := fun h c => match c with HmacRun => rc | _ => hmac_rc e h c end;
     hmac_digest := hmac_digest e;
     stack_garbage := stack_garbage e;
     usb_exists := usb_exists e;
     usb_send_rc := usb_send_rc e;
     button_subscribe_rc := button_subscribe_rc e;
     button_count := button_count e |}.

Definition failing_encrypt (e : Env) (rc : Z) : Env :=
  {| kv_get_rc := kv_get_rc e;
     kv_set_rc := kv_set_rc e;
     base32_decode := base32_decode e;
     encrypt := fun _ _ _ out iv0 => (rc, out, iv0);
     decrypt := decrypt e;
     hmac_rc := hmac_rc e;
     hmac_digest := hmac_digest e;
     stack_garbage := stack_garbage e;
     usb_exists := usb_exists e;
     usb_send_rc := usb_send_rc e;
     button_subscribe_rc := button_subscribe_rc e;
     button_count := button_count e |}.

Definition failing_decrypt (e : Env) (rc : Z) : Env :=
  {| kv_get_rc := kv_get_rc e;
     kv_set_rc := kv_set_rc e;
     base32_decode := base32_decode e;
     encrypt := encrypt e;
     decrypt := fun _ _ _ _ => (rc, []);
     hmac_rc := hmac_rc e;
     hmac_digest := hmac_digest e;
     stack_garbage := stack_garbage e;
     usb_exists := usb_exists e;
     usb_send_rc := usb_send_rc e;
     button_subscribe_rc := button_subscribe_rc e;
     button_count := button_count e |}.

(** A slot holding a two-byte secret, as [program_secret] leaves it
    under [demo_env], with the counter at [c]. *)
Definition demo_key (c : Z) : hotp_key_t :=
  {| len := 16; iv := replicate 16 7;
     key := buffer 64 [153; 37]; counter := c |}.

Definition demo_world (c : Z) : world :=
  {| keys := [demo_key c; zero_key; zero_key; zero_key];
     kv := {[ kv_key_name 0 := serialize (demo_key c) ]};
     stdin := [];
     trace := [] |}.

End Hotp.

(** ** libtock/proximity.c *)

Module Proximity.

(** [struct thresholds] and [struct data]. *)
Record thresholds := {
  lower_threshold : Z;
  higher_threshold : Z
}.

Record data := {
  fired : bool;
  proximity : Z
}.

(** Values and the error conversion that tock.h declares (not among the
    sources): kept as parameters. *)
Record tock := {
  TOCK_SUCCESS : Z;
  TOCK_FAIL : Z;
  TOCK_SYSCALL_SUCCESS : Z;
  tock_error_to_rcode : Z -> Z
}.

Inductive event :=
| EvSubscribe (success : bool) (error : Z)            (* subscribe2(DRIVER_NUM_PROXIMITY, 0, ..) *)
| EvCommand (num arg0 arg1 : Z) (type data0 : Z).     (* command2(DRIVER_NUM_PROXIMITY, ..) *)

(** The kernel's answers; each may depend on the calls made so far. *)
Record Env := {
  subscribe2 : list event -> bool * Z;
  command2 : list event -> Z -> Z -> Z -> Z * Z
}.

(** A callback delivered by one [yield()]. *)
Inductive upcall :=
| UpProximity (reading : Z)    (* the driver's upcall, with the reading *)
| UpOther.

(** The file's globals, whether [cb] is the registered callback, the
    callbacks still to be delivered, and the syscalls made. *)
Record state := {
  threshes : thresholds;
  result : data;
  cb_registered : bool;
  pending : list upcall;
  trace : list event
}.

(** Static initialisers. *)
Definition initial (sched : list upcall) : state :=
  {| threshes := {| lower_threshold := 0; higher_threshold := 175 |};
     result := {| fired := false; proximity := 0 |};
     cb_registered := false;
     pending := sched;
     trace := [] |}.

Definition int32 (x : Z) : Z := (x + 2 ^ 31) mod 2 ^ 32 - 2 ^ 31.

(** [cb]: stores the reading and raises the flag. *)
Definition cb (reading : Z) (d : data) : data :=
  {| fired := true; proximity := int32 reading |}.

Section Calls.

Variable T : tock.
Variable E : Env.

(** [proximity_set_callback(cb, &result)]. *)
Definition proximity_set_callback (st : state) : Z * state :=
  let '(success, error) := subscribe2 E (trace st) in
  let st' := {| threshes := threshes st; result := result st;
                cb_registered := if success then true else cb_registered st;
                pending := pending st;
                trace := trace st ++ [EvSubscribe success error] |} in
  if success then (TOCK_SUCCESS T, st')
  else (tock_error_to_rcode T error, st').

(** The shared shape of [proximity_read] and
    [proximity_read_on_interrupt]. *)
Definition command_status (num arg0 arg1 : Z) (st : state) : Z * state :=
  let '(type, data0) := command2 E (trace st) num arg0 arg1 in
  let st' := {| threshes := threshes st; result := result st;
                cb_registered := cb_registered st;
                pending := pending st;
                trace := trace st ++ [EvCommand num arg0 arg1 type data0] |} in
  if type =? TOCK_SYSCALL_SUCCESS T then (TOCK_SUCCESS T, st')
  else if type >? TOCK_SYSCALL_SUCCESS T then (TOCK_FAIL T, st')
  else (tock_error_to_rcode T data0, st').

Definition proximity_read (st : state) : Z * state :=
  command_status 1 0 0 st.

Definition proximity_read_on_interrupt (st : state) : Z * state :=
  command_status 2 (lower_threshold (threshes st)) (higher_threshold (threshes st)) st.

Definition proximity_set_interrupt_thresholds (lower upper : Z) (st : state) : Z * state :=
  (0, {| threshes := {| lower_threshold := u8 lower; higher_threshold := u8 upper |};
         result := result st; cb_registered := cb_registered st;
         pending := pending st; trace := trace st |}).

(** Modelled from the spec: [yield()] runs one pending callback; the
    driver's upcall reaches [cb] when [cb] is the registered callback. *)
Definition deliver (u : upcall) (registered : bool) (d : data) : data :=
  match u with
  | UpProximity reading => if registered then cb reading d else d
  | UpOther => d
  end.

(** [yield_for(&result.fired)]: [None] when the flag is still down once
    every pending callback has run. *)
Fixpoint yield_for_fired (sched : list upcall) (registered : bool) (d : data)
  : option (data * list upcall) :=
  if fired d then Some (d, sched)
  else
    match sched with
    | [] => None
    | u :: sched' => yield_for_fired sched' registered (deliver u registered d)
    end.

Definition set_fired (st : state) (b : bool) : state :=
  {| threshes := threshes st;
     result := {| fired := b; proximity := proximity (result st) |};
     cb_registered := cb_registered st; pending := pending st; trace := trace st |}.

(** The common body of the two synchronous reads; the result is the
    return value, what was stored through [proximity] (if anything) and
    the state, or [None] when the caller stays suspended. *)
Definition read_sync (start : state -> Z * state) (st : state)
  : option (Z * option Z * state) :=
  let st := set_fired st false in
  let '(err, st) := proximity_set_callback st in
  if err <? 0 then Some (err, None, st) else
  let '(err, st) := start st in
  if err <? 0 then Some (err, None, st) else
  match yield_for_fired (pending st) (cb_registered st) (result st) with
  | None => None
  | Some (d, rest) =>
      Some (0, Some (u8 (proximity d)),
            {| threshes := threshes st; result := d;
               cb_registered := cb_registered st; pending := rest; trace := trace st |})
  end.

Definition proximity_read_sync (st : state) : option (Z * option Z * state) :=
  read_sync proximity_read st.

Definition proximity_read_on_interrupt_sync (st : state) : option (Z * option Z * state) :=
  read_sync proximity_read_on_interrupt st.

End Calls.

(** The values libtock uses, for running the functions on examples. *)
Definition libtock_values : tock :=
  {| TOCK_SUCCESS := 0; TOCK_FAIL := -1; TOCK_SYSCALL_SUCCESS := 128;
     tock_error_to_rcode := fun e => - e |}.

Definition working_driver : Env :=
  {| subscribe2 := fun _ => (true, 0);
     command2 := fun _ _ _ _ => (128, 0) |}.

End Proximity.

(** ** examples/servo/main.c *)

Module Servo.

Inductive message :=
| MsgNoServo                   (* "There is no available servo" *)
| MsgCurrentAngle (angle : Z)  (* "The current angle is: %d" *)
| MsgServoOff                  (* "The servomotor is OFF" *)
| MsgNotChanged                (* "The angle could not be changed" *)
| MsgIndexTooBig.              (* "The index number is bigger than ..." *)

Inductive event :=
| EvPrint (m : message)
| EvServoAngle (index angle ret : Z)          (* libtock_servo_angle *)
| EvDelay (r : Alarm.delay_result)            (* libtocksync_alarm_delay_ms(100) *)
| EvCurrentAngle (index ret angle : Z).       (* libtock_current_servo_angle *)

(** The servo driver and the alarm as the program meets them; the servo
    answers may depend on what happened so far.  [RETURNCODE_ENODEVICE]
    is declared in tock.h, which is not among the sources. *)
Record Env := {
  libtock_servo_exists : bool;
  libtock_servo_angle : list event -> Z -> Z -> Z;
  libtock_current_servo_angle : list event -> Z -> Z * Z;
  frequency : Z;
  alarm : Alarm.delay_env;
  RETURNCODE_ENODEVICE : Z
}.

(** How [main] ends: with a return value, or stopped by the assertion
    inside the delay. *)
Inductive exit :=
| Returned (code : Z)
| Aborted.

Definition u16 (x : Z) : Z := wrap 16 x.

Section Program.

Variable E : Env.

(** The [for] loop from angle [i], with [remaining] iterations to go up
    to and including 180; running off its end leaves [main], which then
    returns 0. *)
Fixpoint sweep (remaining : nat) (i : Z) (tr : list event) : exit * list event :=
  match remaining with
  | O => (Returned 0, tr)
  | S remaining' =>
      let index := 0 in
      let ret := libtock_servo_angle E tr index (u16 i) in
      let tr := tr ++ [EvServoAngle index (u16 i) ret] in
      if ret =? RETURNCODE_SUCCESS then
        let d := Alarm.libtocksync_alarm_delay_ms (frequency E) (alarm E) 100 in
        let tr := tr ++ [EvDelay d] in
        match d with
        | Alarm.DelayAborted => (Aborted, tr)
        | Alarm.DelayReturned _ _ _ =>
            let '(cret, angle) := libtock_current_servo_angle E tr index in
            let tr := tr ++ [EvCurrentAngle index cret (u16 angle)] in
            let tr :=
              if cret =? RETURNCODE_SUCCESS
              then tr ++ [EvPrint (MsgCurrentAngle (u16 angle))]
              else tr ++ [EvPrint MsgServoOff] in
            sweep remaining' (i + 1) tr
        end
      else
        let tr := tr ++ [EvPrint MsgNotChanged] in
        let again := libtock_servo_angle E tr index (u16 i) in
        let tr := tr ++ [EvServoAngle index (u16 i) again] in
        let tr :=
          if again =? RETURNCODE_ENODEVICE E
          then tr ++ [EvPrint MsgIndexTooBig] else tr in
        (Returned (-1), tr)
  end.

Definition main : exit * list event :=
  if negb (libtock_servo_exists E) then (Returned (-1), [EvPrint MsgNoServo])
  else sweep 181 0 [].

End Program.

(** The angles the servo was asked to take, in order. *)
Fixpoint commanded (tr : list event) : list Z :=
  match tr with
  | [] => []
  | EvServoAngle _ angle _ :: rest => angle :: commanded rest
  | _ :: rest => commanded rest
  end.

(** The tick counts of the delays that were armed. *)
Fixpoint delays (tr : list event) : list Z :=
  match tr with
  | [] => []
  | EvDelay (Alarm.DelayReturned ticks _ _) :: rest => ticks :: delays rest
  | _ :: rest => delays rest
  end.

(** A servo that follows every command, on a 32768 Hz alarm. *)
Definition obedient : Env :=
  {| libtock_servo_exists := true;
     libtock_servo_angle := fun _ _ _ => RETURNCODE_SUCCESS;
     libtock_current_servo_angle := fun tr _ =>
       (RETURNCODE_SUCCESS, List.last (commanded tr) 0);
     frequency := 32768;
     alarm := {| Alarm.set_relative_blind_rc := fun _ => 0;
                 Alarm.yield_wait_for_data0 := 0 |};
     RETURNCODE_ENODEVICE := -11 |}.


End Servo.

(** * Vocabulary of the statements

    Observers of traces, the specification's wording of the HOTP steps,
    and the predicates in which the properties below are phrased. *)

Section Vocabulary.

Import Alarm Hotp.

Variable E : Env.

(** Once the timeout callback has run, the alarm is no longer pending. *)
Definition bridge_inv (s : bridge) : Prop :=
  fired s = true -> alarm_pending s = false.

(** Reading a string of decimal digits back as a number. *)
Fixpoint decimal_value_from (acc : Z) (s : string) : Z :=
  match s with
  | EmptyString => acc
  | String c s' => decimal_value_from (10 * acc + (Z.of_N (N_of_ascii c) - 48)) s'
  end.

Definition decimal_value (s : string) : Z := decimal_value_from 0 s.

(** Every character is one of '0' .. '9'. *)
Fixpoint all_digits (s : string) : bool :=
  match s with
  | EmptyString => true
  | String c s' =>
      (48 <=? Z.of_N (N_of_ascii c)) && (Z.of_N (N_of_ascii c) <=? 57) && all_digits s'
  end.

(** The steps of the HOTP engine in the specification's wording: the
    counter as eight bytes, most significant first; the dynamic
    truncation of the digest; the reduction to [d] digits. *)
Definition spec_counter_bytes (c : Z) : list Z :=
  (fun i => (c / 256 ^ (7 - i)) mod 256) <$> seqZ 0 8.

Definition spec_truncated (digest : list Z) : Z :=
  let offset := Z.land (byte_at digest 31) 15 in
  Z.lor (Z.lor (Z.lor
    (Z.shiftl (Z.land (byte_at digest offset) 127) 24)
    (Z.shiftl (byte_at digest (offset + 1)) 16))
    (Z.shiftl (byte_at digest (offset + 2)) 8))
    (byte_at digest (offset + 3)).

Definition spec_code (digest : list Z) (d : Z) : Z :=
  spec_truncated digest mod 10 ^ d.

(** Big-endian reading of a byte string. *)
Definition be_value (bs : list Z) : Z := fold_left (fun acc b => acc * 256 + b) bs 0.

(** The range of a [uint8_t]. *)
Definition is_byte (b : Z) : Prop := 0 <= b < 256.

(** A slot record whose fields fit their C types. *)
Definition well_formed (r : hotp_key_t) : Prop :=
  is_byte (len r) /\
  length (iv r) = 16%nat /\ Forall is_byte (iv r) /\
  length (key r) = 64%nat /\ Forall is_byte (key r) /\
  0 <= counter r < 2 ^ 64.

(** The codes that left the device, in order. *)
Fixpoint emitted_codes (evs : list event) : list string :=
  match evs with
  | [] => []
  | EvUsbSend s _ :: rest => s :: emitted_codes rest
  | EvPrint (MsgCode s) :: rest => s :: emitted_codes rest
  | _ :: rest => emitted_codes rest
  end.

(** The writes issued to the key-value store, with their status. *)
Fixpoint kv_writes (evs : list event) : list (string * list Z * Z) :=
  match evs with
  | [] => []
  | EvKvSet k v rc :: rest => (k, v, rc) :: kv_writes rest
  | _ :: rest => kv_writes rest
  end.

(** What was printed on the console. *)
Fixpoint console (evs : list event) : list message :=
  match evs with
  | [] => []
  | EvPrint m :: rest => m :: console rest
  | _ :: rest => console rest
  end.

(** The buttons whose interrupt was enabled. *)
Fixpoint enabled_buttons (evs : list event) : list Z :=
  match evs with
  | [] => []
  | EvButtonEnable i :: rest => i :: enabled_buttons rest
  | _ :: rest => enabled_buttons rest
  end.

(** Button [n] pressed and released within the hold delay, or held. *)
Definition short_press (n : Z) : press := {| press_num := n; press_new_val := 0 |}.
Definition long_press (n : Z) : press := {| press_num := n; press_new_val := 1 |}.

(** [wp m w Q]: from [w] the computation [m] ends normally, in a result
    and a world that satisfy [Q]. *)
Definition wp {A} (m : M A) (w : world) (Q : A -> world -> Prop) : Prop :=
  match m w with
  | Done a w' => Q a w'
  | MemFault _ _ => False
  | Blocked _ => False
  end.

(** The store after a write that returned [rc], and what [save_key]
    prints about it. *)
Definition store_after (w : world) (k : string) (v : list Z) (rc : Z)
  : gmap string (list Z) :=
  if rc =? 0 then <[k := v]> (kv w) else kv w.

Definition save_errors (rc : Z) : list event :=
  if rc =? 0 then [] else [EvPrint (MsgError rc); EvPrint MsgCouldNotStore].

(** The record stored for a key as far as a read can use it: the driver
    answers, the key is present, and the value has the size of
    [hotp_key_t]. *)
Definition readable_record (w : world) (name : string) : option (list Z) :=
  if kv_get_rc E (trace w) name =? 0 then
    match kv w !! name with
    | Some v => if u32 (Z.of_nat (length v)) =? SIZEOF_HOTP_KEY_T then Some v else None
    | None => None
    end
  else None.

(** The events [hmac] can produce. *)
Definition hmac_event (e : event) : Prop :=
  match e with
  | EvHmac _ _ | EvPrint (MsgHmacFailure _) => True
  | _ => False
  end.

(** What [hmac] leaves behind: a negative return value and an untouched
    output buffer, or a non-negative one and the digest. *)
Definition hmac_result (key0 : list Z) (key_len : Z) (data out : list Z)
           (res : Z * list Z) : Prop :=
  (exists h c, res.1 = hmac_rc E h c) /\
  ((res.1 < 0 /\ res.2 = out) \/
   (0 <= res.1 /\ res.2 = buffer (length out) (hmac_digest E key0 key_len data))).

(** The events by which a code leaves the device. *)
Definition is_emission (e : event) : Prop :=
  match e with
  | EvUsbSend _ _ | EvPrint (MsgCode _) => True
  | _ => False
  end.

(** The events of sending [code]: typed on the USB keyboard and
    commented on the console, or printed on the console. *)
Definition emission_of (code : string) (evs : list event) : Prop :=
  (exists ret m, evs = [EvUsbSend code ret; EvPrint m] /\ ~ is_emission (EvPrint m)) \/
  evs = [EvPrint (MsgCode code)].

(** The code [get_next_code] sends, given the contents of
    [hmac_output_buf] and the slot's digit count. *)
Definition code_sent (d : Z) (hmac_output_buf : list Z) : string :=
  let '(hotp_format_buffer, len) := format_code d (truncate_S hmac_output_buf) in
  substring 0 (Z.to_nat len) hotp_format_buffer.

(** Everything one call of [get_next_code] does, for a slot in range. *)
Definition generation (slot_num : Z) (r : hotp_key_t) (d : Z) (w w' : world) : Prop :=
  exists keylen key0 res hevs rc out_evs,
    let r' := set_counter r (counter r + 1) in
    let name := kv_key_name slot_num in
    let started := trace w ++ [EvLed true slot_num] in
    (keylen, key0) =
      (let '(ret, out) := decrypt E started (iv r) (key r) (len r) in (ret, buffer 64 out)) /\
    hmac_result key0 keylen (moving_factor_of (counter r))
                (buffer 32 (stack_garbage E (started ++ [EvDecrypt keylen]))) res /\
    Forall hmac_event hevs /\
    emission_of (code_sent d res.2) out_evs /\
    keys w' = <[Z.to_nat slot_num := r']> (keys w) /\
    kv w' = store_after w name (serialize r') rc /\
    stdin w' = stdin w /\
    trace w' = trace w ++ [EvLed true slot_num; EvDecrypt keylen] ++ hevs
                 ++ [EvKvSet name (serialize r') rc] ++ save_errors rc
                 ++ out_evs ++ [EvLed false slot_num].









(** Between [w] and [w'] only slot [j] and its stored record may differ. *)
Definition only_slot_changed (j : Z) (w w' : world) : Prop :=
  length (keys w') = length (keys w) /\
  (forall i : nat, i <> Z.to_nat j -> keys w' !! i = keys w !! i) /\
  (forall i : Z, 0 <= i -> i <> j -> kv w' !! kv_key_name i = kv w !! kv_key_name i) /\
  stdin w' = stdin w.

End Vocabulary.

(** * Properties *)

(** ** The alarm service *)

Section AlarmProperties.

Import Alarm.

Lemma u32_small x : 0 <= x < 2 ^ 32 -> u32 x = x.
Proof. intros H. unfold u32, wrap. apply Z.mod_small. exact H. Qed.

Lemma u64_small x : 0 <= x < 2 ^ 64 -> u64 x = x.
Proof. intros H. unfold u64, wrap. apply Z.mod_small. exact H. Qed.

(** Without wrap-around: what [ms_to_ticks] returns for 32-bit inputs. *)
Lemma ms_to_ticks_value frequency ms t :
  0 <= frequency < 2 ^ 32 -> 0 <= ms < 2 ^ 32 ->
  ms_to_ticks frequency ms = Some t ->
  t = (ms / 10) * frequency + ((ms mod 1000) * frequency) / 1000.
Proof.
  intros Hf Hms. unfold ms_to_ticks.
  assert (H10 : 0 <= ms / 10 < 2 ^ 29).
  { split; [apply Z.div_pos; lia|]. apply Z.div_lt_upper_bound; lia. }
  assert (Hm : 0 <= ms mod 1000 < 1000) by (apply Z.mod_pos_bound; lia).
  rewrite (u32_small (ms / 10)) by lia.
  rewrite (u32_small (ms mod 1000)) by lia.
  assert (Hp : 0 <= ms / 10 * frequency < 2 ^ 61).
  { split; [apply Z.mul_nonneg_nonneg; lia|].
    change (2 ^ 61) with (2 ^ 29 * 2 ^ 32). apply Z.mul_lt_mono_nonneg; lia. }
  assert (Hq : 0 <= ms mod 1000 * frequency < 2 ^ 42).
  { split; [apply Z.mul_nonneg_nonneg; lia|].
    change (2 ^ 42) with (2 ^ 10 * 2 ^ 32). apply Z.mul_lt_mono_nonneg; lia. }
  rewrite (u64_small (ms / 10 * frequency)) by lia.
  rewrite (u64_small (ms mod 1000 * frequency)) by lia.
  assert (Hd : 0 <= ms mod 1000 * frequency / 1000 < 2 ^ 42).
  { split; [apply Z.div_pos; lia|]. apply Z.div_lt_upper_bound; lia. }
  rewrite u64_small by lia.
  destruct (Z.leb_spec (ms / 10 * frequency + ms mod 1000 * frequency / 1000) UINT32_MAX)
    as [Hle|Hgt]; [|discriminate].
  intros [= <-]. unfold UINT32_MAX in Hle. apply u32_small. lia.
Qed.

(** C5. The tick count [ms_to_ticks] returns is not the documented
    [(ms/1000)*f + ((ms mod 1000)*f)/1000]: at a 32768 Hz alarm the
    500 ms hold-detection delay converts to 1654784 ticks (50.5 s), where
    the documented conversion gives 16384 ticks; the delay routine arms
    exactly that count. *)
Theorem ms_to_ticks_hold_delay_off :
  ms_to_ticks 32768 500 = Some 1654784 /\
  ms_to_ticks_documented 32768 500 = 16384 /\
  libtocksync_alarm_delay_ms 32768
    {| set_relative_blind_rc := fun _ => 0; yield_wait_for_data0 := 0 |} 500
  = DelayReturned 1654784 true 0.
Proof. repeat split; vm_compute; reflexivity. Qed.

Lemma yield_inv u s : bridge_inv s -> bridge_inv (yield u s).
Proof.
  unfold bridge_inv. destruct u as [|b|]; simpl; auto.
  destruct (alarm_pending s) eqn:Hp; simpl; auto.
Qed.

Lemma wait_loop_returns sched : forall s rc s' rest,
  bridge_inv s ->
  wait_loop sched s = Some (rc, s', rest) ->
  alarm_pending s' = false /\
  ((rc = RETURNCODE_SUCCESS /\ cond s' = true) \/
   (rc = RETURNCODE_FAIL /\ cond s' = false /\ fired s' = true)).
Proof.
  induction sched as [|u sched IH]; intros s rc s' rest Hinv; simpl;
    destruct (cond s) eqn:Hc; simpl.
  - intros [= <- <- <-]. simpl. auto.
  - destruct (fired s) eqn:Hf; [|discriminate].
    intros [= <- <- <-]. split; [apply Hinv; exact Hf|]. right. auto.
  - intros [= <- <- <-]. simpl. auto.
  - destruct (fired s) eqn:Hf.
    + intros [= <- <- <-]. split; [apply Hinv; exact Hf|]. right. auto.
    + intros Hrun. eapply IH; [apply yield_inv; exact Hinv | exact Hrun].
Qed.

Lemma wait_loop_fired sched s :
  cond s = false -> fired s = true ->
  wait_loop sched s = Some (RETURNCODE_FAIL, s, sched).
Proof. intros Hc Hf. destruct sched; simpl; rewrite Hc, Hf; reflexivity. Qed.

Lemma wait_loop_times_out pre : forall post s,
  cond s = false ->
  fired s = true \/ alarm_pending s = true ->
  Forall (fun u => u <> UpCond true) pre ->
  exists s' rest, wait_loop (pre ++ UpTimer :: post) s = Some (RETURNCODE_FAIL, s', rest).
Proof.
  induction pre as [|u pre IH]; intros post s Hc Hs Hpre.
  - destruct (fired s) eqn:Hf.
    + rewrite wait_loop_fired by assumption. eauto.
    + destruct Hs as [Hs|Hs]; [discriminate|].
      simpl. rewrite Hc, Hf. simpl.
      rewrite wait_loop_fired; [eauto| |]; unfold yield; rewrite Hs; simpl; auto.
  - destruct (fired s) eqn:Hf.
    + rewrite wait_loop_fired by assumption. eauto.
    + destruct Hs as [Hs|Hs]; [discriminate|].
      inversion Hpre as [|? ? Hu Hpre']; subst.
      simpl. rewrite Hc, Hf. simpl.
      apply IH; [| |exact Hpre'].
      * destruct u as [|[|]|]; simpl; try rewrite Hs; simpl; auto. congruence.
      * destruct u as [|b|]; simpl; try rewrite Hs; simpl; auto.
Qed.

Lemma wait_loop_cond sched s :
  cond s = true ->
  wait_loop sched s = Some (RETURNCODE_SUCCESS, libtock_alarm_cancel s, sched).
Proof. intros Hc. destruct sched; simpl; rewrite Hc; reflexivity. Qed.

Lemma wait_loop_completes pre : forall post s,
  fired s = false ->
  Forall (fun u => u <> UpTimer) pre ->
  exists s' rest,
    wait_loop (pre ++ UpCond true :: post) s = Some (RETURNCODE_SUCCESS, s', rest).
Proof.
  induction pre as [|u pre IH]; intros post s Hf Hpre.
  - destruct (cond s) eqn:Hc.
    + rewrite wait_loop_cond by assumption. eauto.
    + simpl. rewrite Hc, Hf. simpl.
      rewrite wait_loop_cond by reflexivity. eauto.
  - destruct (cond s) eqn:Hc.
    + rewrite wait_loop_cond by assumption. eauto.
    + inversion Hpre as [|? ? Hu Hpre']; subst.
      simpl. rewrite Hc, Hf. simpl.
      apply IH; [|exact Hpre'].
      destruct u as [|b|]; simpl; [congruence | exact Hf | exact Hf].
Qed.

(** C6. [libtocksync_alarm_yield_for_with_timeout] returns success only
    with [*cond] true, returns the failure code when the timer expires
    before [*cond] is set, and in either case no timer armed by the call
    is pending once it has returned; it does return success when [*cond]
    is set before the timer expires. *)
Theorem yield_for_with_timeout_contract (sched : list upcall) (s : bridge) :
  (forall rc s' rest,
     libtocksync_alarm_yield_for_with_timeout sched s = Some (rc, s', rest) ->
     alarm_pending s' = false /\
     ((rc = RETURNCODE_SUCCESS /\ cond s' = true) \/
      (rc = RETURNCODE_FAIL /\ cond s' = false /\ fired s' = true))) /\
  (forall pre post,
     sched = pre ++ UpTimer :: post ->
     cond s = false ->
     Forall (fun u => u <> UpCond true) pre ->
     exists s' rest,
       libtocksync_alarm_yield_for_with_timeout sched s
       = Some (RETURNCODE_FAIL, s', rest)) /\
  (forall pre post,
     sched = pre ++ UpCond true :: post ->
     Forall (fun u => u <> UpTimer) pre ->
     exists s' rest,
       libtocksync_alarm_yield_for_with_timeout sched s
       = Some (RETURNCODE_SUCCESS, s', rest)).
Proof.
  unfold libtocksync_alarm_yield_for_with_timeout. split; [|split].
  - intros rc s' rest. apply wait_loop_returns.
    unfold bridge_inv. simpl. discriminate.
  - intros pre post -> Hc Hpre.
    apply wait_loop_times_out; simpl; auto.
  - intros pre post -> Hpre.
    apply wait_loop_completes; simpl; auto.
Qed.

Lemma yield_for_with_timeout_contract_witness :
  let s := {| cond := false; fired := true; alarm_pending := false |} in
  (exists s' rest,
     libtocksync_alarm_yield_for_with_timeout [UpOther; UpTimer; UpCond true] s
     = Some (RETURNCODE_FAIL, s', rest) /\ alarm_pending s' = false) /\
  (exists s' rest,
     libtocksync_alarm_yield_for_with_timeout [UpOther; UpCond true; UpTimer] s
     = Some (RETURNCODE_SUCCESS, s', rest) /\ alarm_pending s' = false /\ cond s' = true).
Proof.
  intros s. split.
  - destruct (yield_for_with_timeout_contract [UpOther; UpTimer; UpCond true] s)
      as (Hret & Htimeout & _).
    destruct (Htimeout [UpOther] [UpCond true]) as (s' & rest & Hrun).
    + reflexivity.
    + reflexivity.
    + repeat constructor. discriminate.
    + exists s', rest. split; [exact Hrun|].
      destruct (Hret _ _ _ Hrun) as [Hp _]. exact Hp.
  - destruct (yield_for_with_timeout_contract [UpOther; UpCond true; UpTimer] s)
      as (Hret & _ & Hdone).
    destruct (Hdone [UpOther] [UpTimer]) as (s' & rest & Hrun).
    + reflexivity.
    + repeat constructor. discriminate.
    + exists s', rest. split; [exact Hrun|].
      destruct (Hret _ _ _ Hrun) as [Hp [[_ Hc]|[Hrc _]]].
      * split; assumption.
      * discriminate Hrc.
Defined.

End AlarmProperties.

(** ** Decimal rendering *)

Section Rendering.

Import Hotp.

Lemma string_length_app (a b : string) :
  String.length (a +:+ b) = (String.length a + String.length b)%nat.
Proof. induction a as [|c a IH]; simpl; [reflexivity | rewrite IH; reflexivity]. Qed.

Lemma decimal_value_from_app (a b : string) : forall acc,
  decimal_value_from acc (a +:+ b) = decimal_value_from (decimal_value_from acc a) b.
Proof. induction a as [|c a IH]; intros acc; simpl; [reflexivity | apply IH]. Qed.

Lemma all_digits_app (a b : string) :
  all_digits (a +:+ b) = all_digits a && all_digits b.
Proof.
  induction a as [|c a IH]; simpl; [reflexivity|].
  rewrite IH. rewrite andb_assoc. reflexivity.
Qed.

Lemma digit_char_code d : 0 <= d < 10 -> Z.of_N (N_of_ascii (digit_char d)) = 48 + d.
Proof.
  intros H. unfold digit_char. rewrite N_ascii_embedding; lia.
Qed.

Lemma zeros_length n : String.length (zeros n) = n.
Proof. induction n as [|n IH]; simpl; congruence. Qed.

Lemma zeros_value n : decimal_value_from 0 (zeros n) = 0.
Proof. induction n as [|n IH]; simpl; [reflexivity | exact IH]. Qed.

Lemma zeros_digits n : all_digits (zeros n) = true.
Proof. induction n as [|n IH]; simpl; [reflexivity | exact IH]. Qed.

(** With enough fuel the digits denote the number, and a number below
    [10 ^ k] has at most [k] of them. *)
Lemma decimal_digits_spec fuel : forall n,
  0 <= n < 2 ^ Z.of_nat fuel -> (1 <= fuel)%nat ->
  decimal_value_from 0 (decimal_digits fuel n) = n /\
  all_digits (decimal_digits fuel n) = true /\
  (1 <= String.length (decimal_digits fuel n))%nat /\
  forall k : nat, n < 10 ^ Z.of_nat k -> (1 <= k)%nat ->
                  (String.length (decimal_digits fuel n) <= k)%nat.
Proof.
  induction fuel as [|fuel IH]; intros n Hn Hfuel.
  - lia.
  - simpl decimal_digits. destruct (Z.ltb_spec n 10) as [Hlt|Hge].
    + simpl. rewrite digit_char_code by lia.
      repeat split; lia.
    + assert (Hq : 0 <= n / 10 < 2 ^ Z.of_nat fuel).
      { split; [apply Z.div_pos; lia|].
        apply Z.div_lt_upper_bound; [lia|].
        rewrite Nat2Z.inj_succ, Z.pow_succ_r in Hn by lia. lia. }
      assert (Hfuel' : (1 <= fuel)%nat).
      { destruct fuel; [|lia]. simpl in Hq.
        assert (1 <= n / 10) by (apply Z.div_le_lower_bound; lia). lia. }
      destruct (IH _ Hq Hfuel') as (Hv & Hd & Hl & Hk).
      assert (Hm : 0 <= n mod 10 < 10) by (apply Z.mod_pos_bound; lia).
      rewrite decimal_value_from_app, all_digits_app, string_length_app, Hv, Hd.
      simpl. rewrite digit_char_code by lia.
      repeat split.
      * pose proof (Z.div_mod n 10). lia.
      * lia.
      * lia.
      * intros k Hnk Hk1. destruct k as [|k]; [lia|].
        destruct k as [|k]; [simpl in Hnk; lia|].
        assert (String.length (decimal_digits fuel (n / 10)) <= S k)%nat; [|lia].
        apply Hk; [|lia].
        apply Z.div_lt_upper_bound; [lia|].
        rewrite (Nat2Z.inj_succ (S k)), Z.pow_succ_r in Hnk by lia. lia.
Qed.

Lemma decimal_spec n :
  0 <= n ->
  decimal_value_from 0 (decimal n) = n /\
  all_digits (decimal n) = true /\
  forall k : nat, n < 10 ^ Z.of_nat k -> (1 <= k)%nat -> (String.length (decimal n) <= k)%nat.
Proof.
  intros Hn. unfold decimal.
  destruct (decimal_digits_spec (S (Z.to_nat (Z.log2 n))) n) as (Hv & Hd & _ & Hk).
  - split; [exact Hn|].
    destruct (Z.eq_dec n 0) as [->|Hnz]; [simpl; lia|].
    rewrite Nat2Z.inj_succ, Z2Nat.id by apply Z.log2_nonneg.
    apply Z.log2_spec. lia.
  - lia.
  - auto.
Qed.

Lemma substring_all (s : string) (n : nat) :
  (String.length s <= n)%nat -> substring 0 n s = s.
Proof.
  revert n. induction s as [|c s IH]; intros n Hn.
  - destruct n; reflexivity.
  - destruct n as [|n]; simpl in *; [lia|]. rewrite IH by lia. reflexivity.
Qed.

End Rendering.

(** ** The HOTP computation *)

Section HotpArithmetic.

Import Hotp.

Lemma u8_is_byte x : is_byte (u8 x).
Proof. unfold is_byte, u8, wrap. apply Z.mod_pos_bound. lia. Qed.

Lemma u8_byte x : is_byte x -> u8 x = x.
Proof. unfold is_byte, u8, wrap. intros H. apply Z.mod_small. lia. Qed.

Lemma buffer_bytes n l : Forall is_byte (buffer n l).
Proof.
  unfold buffer. apply Forall_fmap, Forall_forall. intros x _. apply u8_is_byte.
Qed.

Lemma buffer_length n l : length (buffer n l) = n.
Proof.
  unfold buffer. rewrite length_fmap, length_take, length_app, length_replicate. lia.
Qed.

Lemma byte_at_is_byte buf i : Forall is_byte buf -> is_byte (byte_at buf i).
Proof.
  intros H. unfold byte_at.
  destruct (nth_in_or_default (Z.to_nat i) buf 0) as [Hin| ->].
  - rewrite Forall_forall in H. apply H. apply list_elem_of_In. exact Hin.
  - unfold is_byte. lia.
Qed.

Lemma land_255 b : is_byte b -> Z.land b 255 = b.
Proof.
  intros H. change 255 with (Z.ones 8). rewrite Z.land_ones by lia.
  apply Z.mod_small. exact H.
Qed.

Lemma land_low_bits b k : 0 <= k -> 0 <= Z.land b (Z.ones k) < 2 ^ k.
Proof. intros Hk. rewrite Z.land_ones by lia. apply Z.mod_pos_bound. lia. Qed.

Lemma lor_below a b n :
  0 <= n -> 0 <= a < 2 ^ n -> 0 <= b < 2 ^ n -> 0 <= Z.lor a b < 2 ^ n.
Proof.
  intros Hn Ha Hb. split; [apply Z.lor_nonneg; lia|].
  destruct (Z.eq_dec (Z.lor a b) 0) as [->|Hz]; [lia|].
  assert (0 <= Z.lor a b) by (apply Z.lor_nonneg; lia).
  apply Z.log2_lt_pow2; [lia|].
  rewrite Z.log2_lor by lia.
  apply Z.max_lub_lt.
  - destruct (Z.eq_dec a 0) as [->|]; [|apply Z.log2_lt_pow2; lia].
    simpl. destruct (Z.eq_dec n 0) as [->|]; [|lia].
    exfalso. apply Hz. assert (b = 0) by (simpl in Hb; lia). subst. reflexivity.
  - destruct (Z.eq_dec b 0) as [->|]; [|apply Z.log2_lt_pow2; lia].
    simpl. destruct (Z.eq_dec n 0) as [->|]; [|lia].
    exfalso. apply Hz. assert (a = 0) by (simpl in Ha; lia). subst. reflexivity.
Qed.

Lemma shiftl_below b k n :
  0 <= k -> 0 <= n -> 0 <= b < 2 ^ n -> 0 <= Z.shiftl b k < 2 ^ (n + k).
Proof.
  intros Hk Hn Hb. rewrite Z.shiftl_mul_pow2 by lia.
  rewrite Z.pow_add_r by lia.
  assert (0 < 2 ^ k) by (apply Z.pow_pos_nonneg; lia). nia.
Qed.

(** On a buffer of bytes the masks and casts of the C expression change
    nothing: [S] is the specification's truncated value, below 2^31. *)
Lemma truncate_S_spec buf :
  Forall is_byte buf ->
  truncate_S buf = spec_truncated buf /\ 0 <= spec_truncated buf < 2 ^ 31.
Proof.
  intros Hb. unfold truncate_S, truncate_offset, spec_truncated.
  change (32 - 1) with 31.
  assert (Hoff : 0 <= Z.land (byte_at buf 31) 15 < 2 ^ 4)
    by (apply (land_low_bits _ 4); lia).
  rewrite (u8_byte (Z.land (byte_at buf 31) 15)) by (unfold is_byte; lia).
  set (offset := Z.land (byte_at buf 31) 15) in *.
  rewrite !land_255 by (apply byte_at_is_byte; exact Hb).
  pose proof (byte_at_is_byte buf (offset + 1) Hb) as H1.
  pose proof (byte_at_is_byte buf (offset + 2) Hb) as H2.
  pose proof (byte_at_is_byte buf (offset + 3) Hb) as H3.
  unfold is_byte in H1, H2, H3.
  assert (H0 : 0 <= Z.land (byte_at buf offset) 127 < 2 ^ 7)
    by (apply (land_low_bits _ 7); lia).
  pose proof (shiftl_below _ 24 7 ltac:(lia) ltac:(lia) H0) as S0.
  pose proof (shiftl_below _ 16 8 ltac:(lia) ltac:(lia) H1) as S1.
  pose proof (shiftl_below _ 8 8 ltac:(lia) ltac:(lia) H2) as S2.
  simpl Z.add in S0, S1, S2.
  assert (B : 0 <=
    Z.lor (Z.lor (Z.lor (Z.shiftl (Z.land (byte_at buf offset) 127) 24)
                        (Z.shiftl (byte_at buf (offset + 1)) 16))
                 (Z.shiftl (byte_at buf (offset + 2)) 8))
          (byte_at buf (offset + 3)) < 2 ^ 31).
  { repeat apply lor_below; lia. }
  split; [|exact B]. apply u32_small. lia.
Qed.

Lemma moving_factor_spec c : moving_factor_of c = spec_counter_bytes c.
Proof.
  unfold moving_factor_of, spec_counter_bytes. simpl.
  change 255 with (Z.ones 8).
  rewrite !Z.land_ones, !Z.shiftr_div_pow2 by lia.
  reflexivity.
Qed.

Lemma moving_factor_big_endian c :
  0 <= c < 2 ^ 64 ->
  be_value (moving_factor_of c) = c /\
  length (moving_factor_of c) = 8%nat /\
  Forall is_byte (moving_factor_of c).
Proof.
  intros Hc. rewrite moving_factor_spec. split; [|split].
  - unfold spec_counter_bytes, be_value. simpl. Z.div_mod_to_equations. lia.
  - reflexivity.
  - unfold spec_counter_bytes. apply Forall_fmap, Forall_forall. intros x _.
    simpl. apply Z.mod_pos_bound. lia.
Qed.

End HotpArithmetic.

(** ** The stored record *)

Section StoredRecord.

Import Hotp.

Lemma fmap_u8_bytes l : Forall is_byte l -> u8 <$> l = l.
Proof.
  induction 1 as [|b l Hb _ IH]; [reflexivity|].
  rewrite fmap_cons, IH, u8_byte by exact Hb. reflexivity.
Qed.

Lemma buffer_exact n l : length l = n -> Forall is_byte l -> buffer n l = l.
Proof.
  intros Hn Hb. unfold buffer. rewrite take_app_length' by (symmetry; exact Hn).
  apply fmap_u8_bytes. exact Hb.
Qed.

Lemma le_bytes_spec c :
  0 <= c < 2 ^ 64 ->
  le_value (le_bytes 8 c) = c /\ length (le_bytes 8 c) = 8%nat /\ Forall is_byte (le_bytes 8 c).
Proof.
  intros Hc. unfold le_bytes. simpl.
  change 255 with (Z.ones 8).
  rewrite !Z.land_ones, ?Z.shiftr_div_pow2 by lia.
  split; [|split].
  - simpl. Z.div_mod_to_equations. lia.
  - reflexivity.
  - repeat constructor; apply Z.mod_pos_bound; lia.
Qed.

Lemma serialize_length r : length (serialize r) = 89%nat.
Proof.
  unfold serialize. simpl. rewrite !length_app, !buffer_length. reflexivity.
Qed.

Lemma deserialize_serialize r : well_formed r -> deserialize (serialize r) = r.
Proof.
  intros (Hl & Hivl & Hiv & Hkl & Hk & Hc).
  destruct (le_bytes_spec _ Hc) as (Hval & Hlel & Hleb).
  unfold deserialize, serialize.
  rewrite (buffer_exact 16 (iv r)), (buffer_exact 64 (key r)), (u8_byte (len r)) by assumption.
  rewrite (buffer_exact 89).
  - destruct r as [l i k c]. cbn [len iv key counter] in *.
    cbn [nth drop]. f_equal.
    + apply take_app_length'. symmetry. exact Hivl.
    + change 17%nat with (S 16). cbn [drop].
      rewrite drop_app_length' by (symmetry; exact Hivl).
      apply take_app_length'. symmetry. exact Hkl.
    + change (drop 81 (l :: i ++ k ++ le_bytes 8 c))
        with (drop (16 + 64) (i ++ k ++ le_bytes 8 c)).
      rewrite app_assoc, drop_app_length' by (rewrite length_app; lia).
      rewrite firstn_all2 by lia. exact Hval.
  - cbn [length]. rewrite !length_app. lia.
  - constructor; [exact Hl|]. repeat (apply Forall_app; split); assumption.
Qed.

End StoredRecord.

(** ** Formatting the code *)

Section CodeFormat.

Import Hotp.

Lemma pow10_bounds d : 1 <= d <= 9 -> 10 <= 10 ^ d <= 10 ^ 9.
Proof.
  intros Hd. split.
  - change 10 with (10 ^ 1) at 1. apply Z.pow_le_mono_r; lia.
  - apply Z.pow_le_mono_r; lia.
Qed.

Lemma format_ld_spec d v :
  1 <= d -> 0 <= v < 10 ^ d ->
  String.length (format_ld d v) = Z.to_nat d /\
  all_digits (format_ld d v) = true /\
  decimal_value (format_ld d v) = v.
Proof.
  intros Hd Hv. unfold format_ld.
  replace (d =? 0) with false by lia. rewrite andb_false_r.
  replace (v <? 0) with false by lia.
  rewrite Z.abs_eq by lia.
  destruct (decimal_spec v ltac:(lia)) as (Hval & Hdig & Hlen).
  specialize (Hlen (Z.to_nat d)). rewrite Z2Nat.id in Hlen by lia.
  specialize (Hlen ltac:(lia) ltac:(lia)).
  unfold decimal_value.
  rewrite string_length_app, all_digits_app, decimal_value_from_app.
  rewrite zeros_length, zeros_digits, zeros_value, Hdig, Hval.
  repeat split. lia.
Qed.

(** For the digit counts a slot can have, the buffer holds the whole
    rendering and [len] is the digit count. *)
Lemma format_code_spec d S0 :
  1 <= d <= 9 ->
  format_code d S0 = (format_ld d (S0 mod 10 ^ d), d) /\
  String.length (format_ld d (S0 mod 10 ^ d)) = Z.to_nat d.
Proof.
  intros Hd. pose proof (pow10_bounds d Hd) as Hp.
  assert (Hm : 0 <= S0 mod 10 ^ d < 10 ^ d) by (apply Z.mod_pos_bound; lia).
  destruct (format_ld_spec d (S0 mod 10 ^ d) ltac:(lia) Hm) as (Hlen & _ & _).
  split; [|exact Hlen].
  unfold format_code, pow10, snprintf.
  change (10 ^ 9) with 1000000000 in Hp.
  rewrite (u32_small (10 ^ d)) by lia.
  unfold long_of_u32. replace (S0 mod 10 ^ d <? 2 ^ 31) with true by lia.
  rewrite Hlen. rewrite substring_all by lia.
  rewrite Z2Nat.id by lia.
  replace (d <? 0) with false by lia. replace (d >? 16) with false by lia.
  reflexivity.
Qed.

Lemma key_digits_range (i : nat) d : key_digits !! i = Some d -> 6 <= d <= 8.
Proof.
  unfold key_digits. intros H.
  do 4 (destruct i as [|i]; [injection H as <-; lia|]). discriminate.
Qed.

(** C9. For every value [S0] and every slot's digit count [d], what
    [get_next_code] formats and sends is the decimal rendering of
    [S0 mod 10^d], zero-filled on the left to exactly [d] digits; 1234
    renders as "001234" with six digits and "00001234" with eight. *)
Theorem code_rendered_to_digit_count (i : nat) (d S0 : Z) :
  key_digits !! i = Some d ->
  let '(hotp_format_buffer, len) := format_code d S0 in
  let emitted := substring 0 (Z.to_nat len) hotp_format_buffer in
  String.length emitted = Z.to_nat d /\
  all_digits emitted = true /\
  decimal_value emitted = S0 mod 10 ^ d /\
  format_code 6 1234 = ("001234"%string, 6) /\
  format_code 8 1234 = ("00001234"%string, 8).
Proof.
  intros Hd. apply key_digits_range in Hd.
  destruct (format_code_spec d S0 ltac:(lia)) as [-> Hlen].
  assert (Hm : 0 <= S0 mod 10 ^ d < 10 ^ d).
  { apply Z.mod_pos_bound. pose proof (pow10_bounds d ltac:(lia)). lia. }
  destruct (format_ld_spec d (S0 mod 10 ^ d) ltac:(lia) Hm) as (_ & Hdig & Hval).
  cbv zeta. rewrite substring_all by lia.
  repeat split; try assumption; vm_compute; reflexivity.
Qed.

Lemma code_rendered_to_digit_count_witness :
  let '(hotp_format_buffer, len) := format_code 7 2147483647 in
  let emitted := substring 0 (Z.to_nat len) hotp_format_buffer in
  String.length emitted = 7%nat /\
  all_digits emitted = true /\
  decimal_value emitted = 2147483647 mod 10 ^ 7 /\
  format_code 6 1234 = ("001234"%string, 6) /\
  format_code 8 1234 = ("00001234"%string, 8).
Proof.
  apply (code_rendered_to_digit_count 2 7 2147483647). reflexivity.
Defined.

End CodeFormat.

(** ** Reasoning about runs of the program *)

Section Runs.

Import Hotp.

Lemma wp_done {A} (m : M A) w Q :
  wp m w Q <-> exists a w', m w = Done a w' /\ Q a w'.
Proof.
  unfold wp. split.
  - destruct (m w) as [a w'| |]; [eauto | tauto | tauto].
  - intros (a & w' & -> & H). exact H.
Qed.

Lemma wp_mono {A} (m : M A) w (Q Q' : A -> world -> Prop) :
  wp m w Q -> (forall a w', Q a w' -> Q' a w') -> wp m w Q'.
Proof. unfold wp. destruct (m w); auto. Qed.

Lemma wp_bind {A B} (m : M A) (f : A -> M B) w Q :
  wp m w (fun a w' => wp (f a) w' Q) -> wp (m ≫= f) w Q.
Proof.
  unfold wp, mbind, M_bind. destruct (m w) as [a w'| |]; auto.
Qed.

Lemma wp_ret {A} (a : A) w (Q : A -> world -> Prop) : Q a w -> wp (mret a) w Q.
Proof. auto. Qed.

Lemma wp_emit e w (Q : unit -> world -> Prop) : Q tt (log w [e]) -> wp (emit e) w Q.
Proof. auto. Qed.

Lemma wp_print m w (Q : unit -> world -> Prop) :
  Q tt (log w [EvPrint m]) -> wp (print m) w Q.
Proof. auto. Qed.

Lemma wp_history w (Q : list event -> world -> Prop) : Q (trace w) w -> wp history w Q.
Proof. auto. Qed.

Lemma wp_keys_load i r w Q :
  in_bounds i = true -> keys w !! Z.to_nat i = Some r ->
  Q r w -> wp (keys_load i) w Q.
Proof. intros Hi Hr HQ. unfold wp, keys_load. rewrite Hi, Hr. exact HQ. Qed.

Lemma wp_keys_store i r w (Q : unit -> world -> Prop) :
  in_bounds i = true -> (Z.to_nat i < length (keys w))%nat ->
  Q tt (with_keys w (<[Z.to_nat i := r]> (keys w))) ->
  wp (keys_store i r) w Q.
Proof.
  intros Hi Hl HQ. unfold wp, keys_store. rewrite Hi.
  rewrite bool_decide_eq_true_2 by exact Hl. exact HQ.
Qed.

Lemma wp_key_digits_load i d w Q :
  in_bounds i = true -> key_digits !! Z.to_nat i = Some d ->
  Q d w -> wp (key_digits_load i) w Q.
Proof. intros Hi Hd HQ. unfold wp, key_digits_load. rewrite Hi, Hd. exact HQ. Qed.

Lemma log_log w a b : log (log w a) b = log w (a ++ b).
Proof. unfold log. simpl. rewrite app_assoc. reflexivity. Qed.

Lemma log_nil w : log w [] = w.
Proof. destruct w. unfold log. simpl. rewrite app_nil_r. reflexivity. Qed.

Variable E : Env.

Lemma wp_kv_set_sync k v w Q :
  (forall rc, rc = kv_set_rc E (trace w) k v ->
              Q rc (log (with_kv w (store_after w k v rc)) [EvKvSet k v rc])) ->
  wp (kv_set_sync E k v) w Q.
Proof. intros HQ. unfold wp, kv_set_sync. apply HQ. reflexivity. Qed.

(** [save_key] always issues the write of the slot's serialised record
    and reports a failure on the console. *)
Lemma wp_save_key i r w (Q : unit -> world -> Prop) :
  in_bounds i = true -> keys w !! Z.to_nat i = Some r ->
  (forall rc, rc = kv_set_rc E (trace w) (kv_key_name i) (serialize r) ->
     Q tt (log (with_kv w (store_after w (kv_key_name i) (serialize r) rc))
               (EvKvSet (kv_key_name i) (serialize r) rc :: save_errors rc))) ->
  wp (save_key E i) w Q.
Proof.
  intros Hi Hr HQ. unfold save_key.
  apply wp_bind, (wp_keys_load i r); [assumption..|].
  apply wp_bind, wp_kv_set_sync. intros rc Hrc.
  specialize (HQ rc Hrc). unfold save_errors in HQ.
  destruct (rc =? 0) eqn:Hz; simpl.
  - apply wp_ret. exact HQ.
  - apply wp_bind, wp_print, wp_print. rewrite !log_log. exact HQ.
Qed.

Lemma wp_hmac_driver c w Q :
  (forall rc, rc = hmac_rc E (trace w) c -> Q rc (log w [EvHmac c rc])) ->
  wp (hmac_driver E c) w Q.
Proof. intros HQ. unfold wp, hmac_driver. simpl. apply HQ. reflexivity. Qed.

Lemma wp_unallow_data_buffer ret out w (Q : Z * list Z -> world -> Prop) :
  (forall evs, Forall hmac_event evs -> Q (ret, out) (log w evs)) ->
  wp (unallow_data_buffer E ret out) w Q.
Proof.
  intros HQ.
  unfold unallow_data_buffer, unallow_dest_buffer, unallow_key_buffer, deregister_upcall.
  do 4 (apply wp_bind, wp_hmac_driver; intros ? _).
  apply wp_ret. rewrite !log_log. apply HQ. repeat constructor.
Qed.

Lemma wp_hmac key0 key_len data out w (Q : Z * list Z -> world -> Prop) :
  (forall res evs,
     hmac_result E key0 key_len data out res -> Forall hmac_event evs ->
     Q res (log w evs)) ->
  wp (hmac E key0 key_len data out) w Q.
Proof.
  intros HQ. unfold hmac.
  unfold unallow_dest_buffer, unallow_key_buffer, deregister_upcall.
  apply wp_bind, wp_hmac_driver; intros r1 Eq1.
  destruct (Z.ltb_spec r1 0) as [Neg1|Pos1].
  { apply wp_ret. apply HQ; [|repeat constructor].
    split; [eauto|]. left. auto. }
  apply wp_bind, wp_hmac_driver; intros r2 Eq2.
  destruct (Z.ltb_spec r2 0) as [Neg2|Pos2].
  { do 1 (apply wp_bind, wp_hmac_driver; intros ? _).
    apply wp_ret. rewrite !log_log. apply HQ; [|repeat constructor].
    split; [eauto|]. left. auto. }
  apply wp_bind, wp_hmac_driver; intros r3 Eq3.
  destruct (Z.ltb_spec r3 0) as [Neg3|Pos3].
  { do 2 (apply wp_bind, wp_hmac_driver; intros ? _).
    apply wp_ret. rewrite !log_log. apply HQ; [|repeat constructor].
    split; [eauto|]. left. auto. }
  apply wp_bind, wp_hmac_driver; intros r4 Eq4.
  destruct (Z.ltb_spec r4 0) as [Neg4|Pos4].
  { do 3 (apply wp_bind, wp_hmac_driver; intros ? _).
    apply wp_ret. rewrite !log_log. apply HQ; [|repeat constructor].
    split; [eauto|]. left. auto. }
  apply wp_bind, wp_hmac_driver; intros r5 Eq5.
  destruct (Z.ltb_spec r5 0) as [Neg5|Pos5].
  { apply wp_unallow_data_buffer. intros evs Hevs. rewrite !log_log.
    apply HQ; [split; [eauto|]; left; auto|].
    repeat (apply Forall_cons; split; [exact I|]). exact Hevs. }
  apply wp_bind, wp_hmac_driver; intros r6 Eq6.
  destruct (Z.ltb_spec r6 0) as [Neg6|Pos6].
  { apply wp_bind, wp_print.
    apply wp_unallow_data_buffer. intros evs Hevs. rewrite !log_log.
    apply HQ; [split; [eauto|]; left; auto|].
    repeat (apply Forall_cons; split; [exact I|]). exact Hevs. }
  apply wp_unallow_data_buffer. intros evs Hevs. rewrite !log_log.
  apply HQ; [split; [eauto|]; right; auto|].
  repeat (apply Forall_cons; split; [exact I|]). exact Hevs.
Qed.

Lemma wp_decrypt_call iv0 cipher clen w (Q : Z * list Z -> world -> Prop) :
  (forall ret out, decrypt E (trace w) iv0 cipher clen = (ret, out) ->
                   Q (ret, buffer 64 out) (log w [EvDecrypt ret])) ->
  wp (decrypt_call E iv0 cipher clen) w Q.
Proof.
  intros HQ. unfold wp, decrypt_call, history, mbind, M_bind. simpl.
  destruct (decrypt E (trace w) iv0 cipher clen) as [ret out] eqn:Hd.
  simpl. apply HQ. reflexivity.
Qed.

Lemma wp_encrypt_call plaintext plen out iv0 w (Q : Z * list Z * list Z -> world -> Prop) :
  (forall ret out' iv', encrypt E (trace w) plaintext plen out iv0 = (ret, out', iv') ->
                        Q (ret, buffer 64 out', buffer 16 iv') (log w [EvEncrypt ret])) ->
  wp (encrypt_call E plaintext plen out iv0) w Q.
Proof.
  intros HQ. unfold wp, encrypt_call, history, mbind, M_bind. simpl.
  destruct (encrypt E (trace w) plaintext plen out iv0) as [[ret out'] iv'] eqn:He.
  simpl. apply HQ. reflexivity.
Qed.

Lemma in_bounds_length i r (ks : list hotp_key_t) :
  ks !! Z.to_nat i = Some r -> (Z.to_nat i < length ks)%nat.
Proof. intros H. eapply lookup_lt_Some. exact H. Qed.

Ltac world_simpl :=
  cbn [trace keys kv stdin log with_kv with_keys with_stdin store_after fst snd];
  rewrite <- ?app_assoc; cbn [app].

Lemma get_next_code_run slot_num r d w :
  in_bounds slot_num = true ->
  keys w !! Z.to_nat slot_num = Some r ->
  key_digits !! Z.to_nat slot_num = Some d ->
  wp (get_next_code E slot_num) w (fun _ w' => generation E slot_num r d w w').
Proof.
  intros Hi Hr Hd. pose proof (in_bounds_length _ _ _ Hr) as Hlen.
  unfold get_next_code.
  apply wp_bind, wp_emit.
  apply wp_bind, (wp_keys_load slot_num r); [assumption..|].
  apply wp_bind, wp_decrypt_call. intros keylen out Hdec. cbn [trace log] in Hdec.
  apply wp_bind, wp_history.
  apply wp_bind, wp_hmac. intros [hret buf] hevs Hres Hevs.
  cbn [trace log] in Hres. rewrite <- app_assoc in Hres. cbn [app] in Hres.
  apply wp_bind, (wp_keys_load slot_num r); [assumption..|].
  apply wp_bind, wp_keys_store; [assumption..|].
  apply wp_bind, (wp_save_key slot_num (set_counter r (counter r + 1)));
    [assumption | cbn [keys with_keys log]; apply list_lookup_insert_eq; exact Hlen |].
  intros rc _.
  apply wp_bind, (wp_key_digits_load slot_num d); [assumption..|].
  destruct (format_code d (truncate_S buf)) as [fbuf flen] eqn:Hfmt.
  apply wp_bind, wp_history.
  assert (Hcode : code_sent d buf = substring 0 (Z.to_nat flen) fbuf).
  { unfold code_sent. rewrite Hfmt. reflexivity. }
  assert (Hdec' : (keylen, buffer 64 out) =
      (let '(ret, out) := decrypt E (trace w ++ [EvLed true slot_num]) (iv r) (key r) (len r)
       in (ret, buffer 64 out))) by (rewrite Hdec; reflexivity).
  apply wp_bind.
  match goal with |- context [usb_exists E ?h] => destruct (usb_exists E h) end.
  - apply wp_bind, wp_history. apply wp_bind, wp_emit.
    match goal with |- context [usb_send_rc E ?h ?c] => set (urc := usb_send_rc E h c) end.
    destruct (urc <? 0).
    + apply wp_print, wp_emit.
      exists keylen, (buffer 64 out), (hret, buf), hevs, rc,
        [EvUsbSend (code_sent d buf) urc; EvPrint (MsgUsbError urc)].
      cbv zeta. world_simpl.
      split; [exact Hdec'|]. split; [exact Hres|]. split; [exact Hevs|].
      split; [|rewrite Hcode; repeat split; reflexivity].
      left. do 2 eexists. split; [reflexivity|]. simpl. tauto.
    + apply wp_bind, (wp_keys_load slot_num (set_counter r (counter r + 1)));
        [assumption | cbn [keys with_keys with_kv log]; apply list_lookup_insert_eq; exact Hlen |].
      apply wp_print, wp_emit.
      exists keylen, (buffer 64 out), (hret, buf), hevs, rc,
        [EvUsbSend (code_sent d buf) urc;
         EvPrint (MsgCounterTyped (u32 (u32 (counter (set_counter r (counter r + 1))) - 1)) fbuf)].
      cbv zeta. world_simpl.
      split; [exact Hdec'|]. split; [exact Hres|]. split; [exact Hevs|].
      split; [|rewrite Hcode; repeat split; reflexivity].
      left. do 2 eexists. split; [reflexivity|]. simpl. tauto.
  - apply wp_print, wp_emit.
    exists keylen, (buffer 64 out), (hret, buf), hevs, rc, [EvPrint (MsgCode (code_sent d buf))].
    cbv zeta. world_simpl.
    split; [exact Hdec'|]. split; [exact Hres|]. split; [exact Hevs|].
    split; [|rewrite Hcode; repeat split; reflexivity].
    right. reflexivity.
Qed.
End Runs.

(** ** Observing a trace *)

Section Observers.

Import Hotp.

Lemma emitted_codes_app a b : emitted_codes (a ++ b) = emitted_codes a ++ emitted_codes b.
Proof.
  induction a as [|e a IH]; [reflexivity|].
  destruct e as [m| | | | | | | | |]; [destruct m|..]; simpl; rewrite IH; reflexivity.
Qed.

Lemma kv_writes_app a b : kv_writes (a ++ b) = kv_writes a ++ kv_writes b.
Proof.
  induction a as [|e a IH]; [reflexivity|].
  destruct e; simpl; rewrite IH; reflexivity.
Qed.

Lemma hmac_events_silent evs :
  Forall hmac_event evs -> emitted_codes evs = [] /\ kv_writes evs = [].
Proof.
  induction 1 as [|e evs He _ [IH1 IH2]]; [split; reflexivity|].
  destruct e as [m| | | | | | | | |]; [destruct m|..]; simpl in *; tauto.
Qed.

Lemma save_errors_silent rc :
  emitted_codes (save_errors rc) = [] /\ kv_writes (save_errors rc) = [].
Proof. unfold save_errors. destruct (rc =? 0); split; reflexivity. Qed.

Lemma emission_of_codes code evs :
  emission_of code evs -> emitted_codes evs = [code] /\ kv_writes evs = [].
Proof.
  intros [(ret & m & -> & Hm) | ->]; [|split; reflexivity].
  destruct m; simpl in *; try tauto.
Qed.

Lemma in_bounds_digits i :
  in_bounds i = true -> exists d, key_digits !! Z.to_nat i = Some d.
Proof.
  unfold in_bounds, NUM_KEYS. intros H.
  assert (Hi : i = 0 \/ i = 1 \/ i = 2 \/ i = 3) by lia.
  destruct Hi as [-> | [-> | [-> | ->]]]; simpl; eauto.
Qed.

End Observers.

(** ** Code generation: [get_next_code] *)

Section Generation.

Import Hotp.

Lemma list_lookup_insert_same {A} (l : list A) (i : nat) (x y : A) :
  l !! i = Some y -> <[i := x]> l !! i = Some x.
Proof. intros H. apply list_lookup_insert_eq. eapply lookup_lt_Some. exact H. Qed.

(** With a store whose write fails, the code of counter 5 is sent while
    the store still holds counter 5: the next boot would generate the
    same code again. *)
Lemma code_sent_although_save_failed :
  match get_next_code (failing_store demo_env (-1)) 0 (demo_world 5) with
  | Done _ w' =>
      emitted_codes (trace w') = ["001234"%string] /\
      kv w' !! kv_key_name 0 = Some (serialize (demo_key 5)) /\
      counter <$> keys w' !! 0%nat = Some 6 /\
      console (trace w') = [MsgError (-1); MsgCouldNotStore; MsgCode "001234"]
  | _ => False
  end.
Proof. vm_compute. repeat split; reflexivity. Qed.

(** C1 (amended). For a slot in range, [get_next_code] increments the
    slot's counter by one (modulo 2^64) and issues the write of the
    updated record to the store before it sends the code; nothing is
    sent before that write and exactly one code is sent after it.  When
    the write succeeds the store holds the incremented counter at the
    time the code is sent; when it fails the store is unchanged, the
    failure is printed, and the code is sent all the same. *)
Theorem counter_saved_before_code_sent (E : Env) (slot_num : Z) (r : hotp_key_t) (w : world) :
  in_bounds slot_num = true ->
  keys w !! Z.to_nat slot_num = Some r ->
  exists w' before rc after code,
    let r' := set_counter r (counter r + 1) in
    let name := kv_key_name slot_num in
    get_next_code E slot_num w = Done tt w' /\
    keys w' !! Z.to_nat slot_num = Some r' /\
    counter r' = (counter r + 1) mod 2 ^ 64 /\
    trace w' = trace w ++ before ++ EvKvSet name (serialize r') rc :: after /\
    emitted_codes before = [] /\ kv_writes before = [] /\
    emitted_codes after = [code] /\ kv_writes after = [] /\
    (rc = 0 -> kv w' !! name = Some (serialize r')) /\
    (rc <> 0 -> kv w' = kv w /\ In (EvPrint MsgCouldNotStore) after).
Proof.
  intros Hi Hr. destruct (in_bounds_digits _ Hi) as [d Hd].
  pose proof (get_next_code_run E slot_num r d w Hi Hr Hd) as Hrun.
  apply wp_done in Hrun.
  destruct Hrun as ([] & w' & Heq & keylen & key0 & res & hevs & rc & out_evs & Hgen).
  cbv zeta in Hgen.
  destruct Hgen as (_ & _ & Hevs & Hout & Hkeys & Hkv & _ & Htr).
  destruct (hmac_events_silent _ Hevs) as [Hs1 Hs2].
  destruct (save_errors_silent rc) as [Hs3 Hs4].
  destruct (emission_of_codes _ _ Hout) as [Hs5 Hs6].
  exists w', ([EvLed true slot_num; EvDecrypt keylen] ++ hevs), rc,
    (save_errors rc ++ out_evs ++ [EvLed false slot_num]), (code_sent d res.2).
  cbv zeta. split; [exact Heq|].
  split; [rewrite Hkeys; eapply list_lookup_insert_same; exact Hr|].
  split; [reflexivity|].
  split; [rewrite Htr, <- !app_assoc; reflexivity|].
  rewrite !emitted_codes_app, !kv_writes_app, Hs1, Hs2, Hs3, Hs4, Hs5, Hs6.
  repeat split; try reflexivity.
  - intros ->. rewrite Hkv. unfold store_after. simpl. apply lookup_insert_eq.
  - rewrite Hkv. unfold store_after. destruct (Z.eqb_spec rc 0); [contradiction|reflexivity].
  - unfold save_errors. destruct (Z.eqb_spec rc 0); [contradiction|].
    simpl. auto.
Qed.

Lemma counter_saved_before_code_sent_witness :
  exists w' before rc after code,
    let r' := set_counter (demo_key 5) (counter (demo_key 5) + 1) in
    let name := kv_key_name 0 in
    get_next_code demo_env 0 (demo_world 5) = Done tt w' /\
    keys w' !! Z.to_nat 0 = Some r' /\
    counter r' = (counter (demo_key 5) + 1) mod 2 ^ 64 /\
    trace w' = trace (demo_world 5) ++ before ++ EvKvSet name (serialize r') rc :: after /\
    emitted_codes before = [] /\ kv_writes before = [] /\
    emitted_codes after = [code] /\ kv_writes after = [] /\
    (rc = 0 -> kv w' !! name = Some (serialize r')) /\
    (rc <> 0 -> kv w' = kv (demo_world 5) /\ In (EvPrint MsgCouldNotStore) after).
Proof.
  apply (counter_saved_before_code_sent demo_env 0 (demo_key 5) (demo_world 5));
    reflexivity.
Defined.

(** C2. With a responsive HMAC engine, the code [get_next_code] sends
    for a slot with digit count [d] is the decimal rendering, [d]
    characters long, of [truncated mod 10^d], where [truncated] is the
    dynamic truncation of the 32-byte digest of the decrypted key and
    the counter written as eight bytes, most significant first (the
    counter as it was before the increment). *)
Theorem code_is_truncated_digest_of_counter
        (E : Env) (slot_num : Z) (r : hotp_key_t) (d : Z) (w : world) :
  in_bounds slot_num = true ->
  keys w !! Z.to_nat slot_num = Some r ->
  key_digits !! Z.to_nat slot_num = Some d ->
  (forall h c, 0 <= hmac_rc E h c) ->
  exists w' keylen key0 code,
    get_next_code E slot_num w = Done tt w' /\
    (keylen, key0) =
      (let '(ret, out) := decrypt E (trace w ++ [EvLed true slot_num]) (iv r) (key r) (len r)
       in (ret, buffer 64 out)) /\
    let digest := buffer 32 (hmac_digest E key0 keylen (spec_counter_bytes (counter r))) in
    emitted_codes (trace w') = emitted_codes (trace w) ++ [code] /\
    String.length code = Z.to_nat d /\
    all_digits code = true /\
    decimal_value code = spec_code digest d.
Proof.
  intros Hi Hr Hd Hok.
  pose proof (get_next_code_run E slot_num r d w Hi Hr Hd) as Hrun.
  apply wp_done in Hrun.
  destruct Hrun as ([] & w' & Heq & keylen & key0 & [hret buf] & hevs & rc & out_evs & Hgen).
  cbv zeta in Hgen.
  destruct Hgen as (Hdec & [(h & c & Hrc) Hres] & Hevs & Hout & _ & _ & _ & Htr).
  simpl in Hrc, Hres, Hout.
  destruct Hres as [[Hneg _]|[_ Hbuf]].
  { specialize (Hok h c). lia. }
  rewrite buffer_length, moving_factor_spec in Hbuf.
  destruct (hmac_events_silent _ Hevs) as [Hs1 _].
  destruct (save_errors_silent rc) as [Hs3 _].
  destruct (emission_of_codes _ _ Hout) as [Hs5 _].
  pose proof (key_digits_range _ _ Hd) as Hrange.
  assert (Hbytes : Forall is_byte buf) by (rewrite Hbuf; apply buffer_bytes).
  destruct (truncate_S_spec buf Hbytes) as [HS _].
  destruct (format_code_spec d (truncate_S buf) ltac:(lia)) as [Hfmt Hlen].
  assert (Hm : 0 <= truncate_S buf mod 10 ^ d < 10 ^ d).
  { apply Z.mod_pos_bound. pose proof (pow10_bounds d ltac:(lia)). lia. }
  destruct (format_ld_spec d _ ltac:(lia) Hm) as (_ & Hdig & Hval).
  assert (Hcode : code_sent d buf = format_ld d (truncate_S buf mod 10 ^ d)).
  { unfold code_sent. rewrite Hfmt. apply substring_all. lia. }
  exists w', keylen, key0, (code_sent d buf).
  split; [exact Heq|]. split; [exact Hdec|]. cbv zeta.
  split.
  - rewrite Htr, !emitted_codes_app, Hs1, Hs3, Hs5. simpl. reflexivity.
  - rewrite Hcode. split; [exact Hlen|]. split; [exact Hdig|].
    rewrite Hval. unfold spec_code. rewrite <- Hbuf, HS. reflexivity.
Qed.

Lemma code_is_truncated_digest_of_counter_witness :
  exists w' keylen key0 code,
    get_next_code demo_env 0 (demo_world 5) = Done tt w' /\
    (keylen, key0) = (2, buffer 64 [153; 37]) /\
    let digest := buffer 32 (hmac_digest demo_env key0 keylen
                               (spec_counter_bytes 5)) in
    emitted_codes (trace w') = [code] /\
    String.length code = 6%nat /\
    all_digits code = true /\
    decimal_value code = spec_code digest 6.
Proof.
  apply (code_is_truncated_digest_of_counter demo_env 0 (demo_key 5) 6 (demo_world 5)).
  - reflexivity.
  - reflexivity.
  - reflexivity.
  - intros h c. simpl. lia.
Defined.

End Generation.

(** ** Failures inside the generate flow *)

Section GenerateFailures.

Import Hotp.

(** C3. A failing [hmac_run] (status -2) is printed by [hmac], but
    [get_next_code] goes on: the counter moves from 5 to 6, the record is
    saved, and a code computed from the stale contents of the output
    buffer is sent.  A failing [decrypt] (status -1) is not reported at
    all and a code is sent as well.  The main loop keeps serving presses
    afterwards (and sends the same stale code again). *)
Theorem generate_flow_ignores_crypto_failures :
  match get_next_code (failing_hmac_run demo_env (-2)) 0 (demo_world 5) with
  | Done _ w' =>
      console (trace w') = [MsgHmacFailure (-2); MsgCode "827882"] /\
      emitted_codes (trace w') = ["827882"%string] /\
      counter <$> keys w' !! 0%nat = Some 6 /\
      kv w' !! kv_key_name 0 = Some (serialize (demo_key 6))
  | _ => False
  end /\
  match get_next_code (failing_decrypt demo_env (-1)) 0 (demo_world 5) with
  | Done _ w' =>
      console (trace w') = [MsgCode "001234"] /\
      emitted_codes (trace w') = ["001234"%string] /\
      counter <$> keys w' !! 0%nat = Some 6
  | _ => False
  end /\
  match main_loop (failing_hmac_run demo_env (-2))
                  [short_press 0; short_press 0] 0 (demo_world 5) with
  | Blocked w' =>
      emitted_codes (trace w') = ["827882"%string; "827882"%string] /\
      counter <$> keys w' !! 0%nat = Some 7
  | _ => False
  end.
Proof. vm_compute. repeat split; reflexivity. Qed.

End GenerateFailures.

(** ** Programming a slot: [program_secret] *)

Section Programming.

Import Hotp.

Variable E : Env.

Lemma wp_eq {A} (m : M A) w a0 w0 :
  wp m w (fun a w' => a = a0 /\ w' = w0) -> m w = Done a0 w0.
Proof.
  intros H. apply wp_done in H. destruct H as (a & w' & -> & -> & ->). reflexivity.
Qed.

(** C7. When decoding or encrypting the secret fails, [program_secret]
    leaves the slot with length 0 and its counter as it was, prints the
    error, and issues no write to the store, whose contents do not
    change. *)
Theorem program_secret_failure_writes_nothing
        (slot_num : Z) (secret : string) (r : hotp_key_t) (w : world) :
  in_bounds slot_num = true ->
  keys w !! Z.to_nat slot_num = Some r ->
  (base32_decode E secret).1 < 0 \/
  (encrypt E (trace w) (base32_decode E secret).2 (base32_decode E secret).1
           (key r) (iv r)).1.1 < 0 ->
  exists w' r' evs,
    program_secret E slot_num secret w = Done tt w' /\
    keys w' = <[Z.to_nat slot_num := r']> (keys w) /\
    len r' = 0 /\ counter r' = counter r /\
    kv w' = kv w /\
    trace w' = trace w ++ evs /\
    kv_writes evs = [] /\
    (In MsgCannotDecode (console evs) \/ In MsgCannotEncrypt (console evs)).
Proof.
  intros Hi Hr Hfail. pose proof (in_bounds_length _ _ _ Hr) as Hlen.
  unfold program_secret.
  destruct (base32_decode E secret) as [dret plaintext]. simpl in Hfail.
  destruct (Z.ltb_spec dret 0) as [Hneg|Hpos].
  - exists (with_keys (log w [EvPrint MsgCannotDecode])
                      (<[Z.to_nat slot_num := set_len r 0]> (keys w))),
      (set_len r 0), [EvPrint MsgCannotDecode].
    split; [|simpl; repeat split; auto].
    apply wp_eq.
    apply wp_bind, wp_print.
    apply wp_bind, (wp_keys_load slot_num r); [assumption..|].
    apply wp_keys_store; [assumption..|]. split; reflexivity.
  - destruct Hfail as [Hfail|Hfail]; [lia|].
    destruct (encrypt E (trace w) plaintext dret (key r) (iv r)) as [[eret out'] iv'] eqn:Henc.
    simpl in Hfail.
    set (r1 := set_cipher r (buffer 64 out') (buffer 16 iv')).
    exists (with_keys (log w [EvEncrypt eret; EvPrint (MsgError eret); EvPrint MsgCannotEncrypt])
                      (<[Z.to_nat slot_num := set_len r1 0]> (keys w))),
      (set_len r1 0), [EvEncrypt eret; EvPrint (MsgError eret); EvPrint MsgCannotEncrypt].
    split; [|simpl; repeat split; auto].
    apply wp_eq.
    apply wp_bind, (wp_keys_load slot_num r); [assumption..|].
    apply wp_bind, wp_encrypt_call. intros ret0 out0 iv0 Henc0.
    rewrite Henc in Henc0. injection Henc0 as <- <- <-.
    apply wp_bind, wp_keys_store; [assumption..|].
    replace (eret <? 0) with true by lia.
    apply wp_bind, wp_print. apply wp_bind, wp_print.
    apply wp_bind, (wp_keys_load slot_num r1);
      [assumption | cbn [keys with_keys log]; apply list_lookup_insert_eq; exact Hlen |].
    apply wp_keys_store;
      [assumption | cbn [keys with_keys log]; rewrite length_insert; exact Hlen |].
    split; [reflexivity|].
    unfold with_keys, log. cbn [keys kv stdin trace].
    rewrite list_insert_insert_eq, <- !app_assoc. reflexivity.
Qed.

End Programming.

Lemma program_secret_failure_writes_nothing_witness :
  exists w' r' evs,
    Hotp.program_secret (Hotp.failing_encrypt Hotp.demo_env (-1)) 0 "test" (Hotp.demo_world 5)
      = Hotp.Done tt w' /\
    Hotp.keys w' = <[Z.to_nat 0 := r']> (Hotp.keys (Hotp.demo_world 5)) /\
    Hotp.len r' = 0 /\ Hotp.counter r' = 5 /\
    Hotp.kv w' = Hotp.kv (Hotp.demo_world 5) /\
    Hotp.trace w' = Hotp.trace (Hotp.demo_world 5) ++ evs /\
    kv_writes evs = [] /\
    (In Hotp.MsgCannotDecode (console evs) \/ In Hotp.MsgCannotEncrypt (console evs)).
Proof.
  apply (program_secret_failure_writes_nothing
           (Hotp.failing_encrypt Hotp.demo_env (-1)) 0 "test"
           (Hotp.demo_key 5) (Hotp.demo_world 5)).
  - reflexivity.
  - reflexivity.
  - right. simpl. lia.
Defined.

(** ** The main loop *)

Section MainLoop.

Import Hotp.

(** C8. A short press on a slot in range whose stored key length is 0
    does not run code generation: the loop body only waits out the hold
    delay and prints that the slot is not configured; the slots, the
    store and the pending input are untouched. *)
Theorem short_press_on_unconfigured_slot
        (E : Env) (n prev : Z) (r : hotp_key_t) (w : world) :
  in_bounds n = true ->
  keys w !! Z.to_nat n = Some r ->
  len r = 0 ->
  main_loop_body E (short_press n) prev w
  = Done n (log w [EvDelayMs 500; EvPrint (MsgNotConfigured n)]).
Proof.
  intros Hi Hr Hlen. apply wp_eq.
  unfold main_loop_body, button_upcall, short_press. simpl.
  apply wp_bind, wp_bind, wp_emit.
  assert (Hlt : (n <? NUM_KEYS) = true) by (unfold in_bounds in Hi; lia).
  rewrite Hlt.
  apply wp_bind, wp_bind, (wp_keys_load n r); [assumption..|].
  apply wp_ret. rewrite Hlen. simpl.
  apply wp_bind, (wp_keys_load n r); [assumption..|].
  rewrite Hlen. simpl.
  apply wp_print, wp_ret. rewrite log_log. split; reflexivity.
Qed.

Lemma short_press_on_unconfigured_slot_witness :
  main_loop_body demo_env (short_press 1) 0 (demo_world 5)
  = Done 1 (log (demo_world 5) [EvDelayMs 500; EvPrint (MsgNotConfigured 1)]).
Proof.
  apply (short_press_on_unconfigured_slot demo_env 1 0 zero_key (demo_world 5));
    reflexivity.
Defined.

(** C10. Button 4 exists on a five-button board and has its interrupt
    enabled, but a short press on it makes the loop read [keys[4].len],
    and holding it makes [program_secret] write [keys[4]]: both index the
    four-entry array out of bounds.  Only the generate branch checks
    [btn_num < NUM_KEYS]. *)
Theorem press_on_fifth_button_indexes_past_keys :
  (forall E prev w,
     main_loop_body E (short_press 4) prev w = MemFault 4 (log w [EvDelayMs 500])) /\
  match main demo_env [short_press 4] (boot ∅ []) with
  | MemFault idx w' => idx = 4 /\ enabled_buttons (trace w') = [0; 1; 2; 3; 4]
  | _ => False
  end /\
  match main demo_env [long_press 4] (boot ∅ ["a"%char; "010"%char]) with
  | MemFault idx w' =>
      idx = 4 /\ console (trace w') =
                 [MsgUsage; MsgProgrammed "test" 0; MsgProgramPrompt 4; MsgCancelHint;
                  MsgEcho "a"; MsgEcho "\r\n"; MsgCannotDecode]
  | _ => False
  end.
Proof.
  split; [|vm_compute; repeat split; reflexivity].
  intros E prev w. reflexivity.
Qed.

End MainLoop.

(** ** Loading the slots at boot: [initialize_keys] *)

Section Boot.

Import Hotp.

(** A record of the wrong size exists for slot 0 before boot; loading
    replaces it and programs the default secret into the slot. *)
Lemma default_secret_replaces_missized_record :
  let store : gmap string (list Z) := {[ kv_key_name 0 := [1; 2; 3] ]} in
  store !! kv_key_name 0 = Some [1; 2; 3] /\
  match initialize_keys demo_env (boot store []) with
  | Done _ w' =>
      console (trace w') = [MsgProgrammed "test" 0] /\
      len <$> keys w' !! 0%nat = Some 16 /\
      kv w' !! kv_key_name 0 = Some (serialize (demo_key 0))
  | _ => False
  end.
Proof. vm_compute. repeat split; reflexivity. Qed.

Lemma bind_eq {A B} (m : M A) (f : A -> M B) w a w' :
  m w = Done a w' -> (m ≫= f) w = f a w'.
Proof. intros H. unfold mbind, M_bind. rewrite H. reflexivity. Qed.

Lemma save_key_eq E i r w :
  in_bounds i = true -> keys w !! Z.to_nat i = Some r ->
  let rc := kv_set_rc E (trace w) (kv_key_name i) (serialize r) in
  save_key E i w
  = Done tt (log (with_kv w (store_after w (kv_key_name i) (serialize r) rc))
                 (EvKvSet (kv_key_name i) (serialize r) rc :: save_errors rc)).
Proof.
  intros Hi Hr rc. apply wp_eq. apply (wp_save_key E i r); [assumption..|].
  intros rc' ->. split; reflexivity.
Qed.

(** C4 (amended). Loading slot [i]: when its record can be read and has
    the right size it is copied into [keys[i]]; otherwise the slot's
    length is set to 0 and that record is written to the store at once,
    and for slot 0 the default secret is then programmed, whether or not
    a record existed before. *)
Theorem load_key_heals_and_programs_default
        (E : Env) (i : Z) (r : hotp_key_t) (w : world) :
  in_bounds i = true ->
  keys w !! Z.to_nat i = Some r ->
  let name := kv_key_name i in
  match readable_record E w name with
  | Some v =>
      load_key E i w
      = Done tt (with_keys (log w [EvKvGet name RETURNCODE_SUCCESS SIZEOF_HOTP_KEY_T])
                           (<[Z.to_nat i := deserialize (take 89 v)]> (keys w)))
  | None =>
      exists ret value_len,
        let r0 := set_len r 0 in
        let rc := kv_set_rc E (trace w ++ [EvKvGet name ret value_len]) name (serialize r0) in
        let w1 :=
          {| keys := <[Z.to_nat i := r0]> (keys w);
             kv := store_after w name (serialize r0) rc;
             stdin := stdin w;
             trace := trace w ++ [EvKvGet name ret value_len;
                                  EvKvSet name (serialize r0) rc] ++ save_errors rc |} in
        len r0 = 0 /\
        (ret <> RETURNCODE_SUCCESS \/ value_len <> SIZEOF_HOTP_KEY_T) /\
        load_key E i w = (if i =? 0 then program_default_secret E w1 else Done tt w1)
  end.
Proof.
  intros Hi Hr name. pose proof (in_bounds_length _ _ _ Hr) as Hlen.
  assert (Hget : exists ret value value_len,
    kv_get_sync E name SIZEOF_HOTP_KEY_T w
      = Done (ret, value, value_len) (log w [EvKvGet name ret value_len]) /\
    match readable_record E w name with
    | Some v => ret = RETURNCODE_SUCCESS /\ value_len = SIZEOF_HOTP_KEY_T /\ value = take 89 v
    | None => ret <> RETURNCODE_SUCCESS \/ value_len <> SIZEOF_HOTP_KEY_T
    end).
  { unfold kv_get_sync, readable_record.
    destruct (Z.eqb_spec (kv_get_rc E (trace w) name) 0) as [Hz|Hnz]; simpl.
    - destruct (kv w !! name) as [v|].
      + do 3 eexists. split; [reflexivity|].
        destruct (Z.eqb_spec (u32 (Z.of_nat (length v))) SIZEOF_HOTP_KEY_T); auto.
      + do 3 eexists. split; [reflexivity|]. left. discriminate.
    - do 3 eexists. split; [reflexivity|]. left. exact Hnz. }
  destruct Hget as (ret & value & value_len & Hrun & Hcase).
  unfold load_key. fold name. rewrite (bind_eq _ _ _ _ _ Hrun).
  destruct (readable_record E w name) as [v|].
  - destruct Hcase as (-> & -> & ->).
    replace (negb (RETURNCODE_SUCCESS =? RETURNCODE_SUCCESS)
             || negb (SIZEOF_HOTP_KEY_T =? SIZEOF_HOTP_KEY_T)) with false by reflexivity.
    apply wp_eq, wp_keys_store; [assumption..|split; reflexivity].
  - exists ret, value_len. cbv zeta. split; [reflexivity|]. split; [exact Hcase|].
    replace (negb (ret =? RETURNCODE_SUCCESS) || negb (value_len =? SIZEOF_HOTP_KEY_T))
      with true by (unfold RETURNCODE_SUCCESS, SIZEOF_HOTP_KEY_T in *; lia).
    erewrite bind_eq; [|apply wp_eq, (wp_keys_load i r); [assumption..|split; reflexivity]].
    erewrite bind_eq;
      [|apply wp_eq, wp_keys_store; [assumption..|split; reflexivity]].
    erewrite bind_eq;
      [|apply (save_key_eq E i (set_len r 0)); [assumption|];
        cbn [keys with_keys log]; apply list_lookup_insert_eq; exact Hlen].
    unfold with_keys, with_kv, log, store_after. cbn [keys kv stdin trace].
    rewrite <- !app_assoc. destruct (i =? 0); reflexivity.
Qed.

Lemma load_key_heals_and_programs_default_witness :
  let store : gmap string (list Z) := {[ kv_key_name 0 := [1; 2; 3] ]} in
  let w := boot store [] in
  exists ret value_len,
    let r0 := set_len zero_key 0 in
    let rc := 0 in
    let w1 :=
      {| keys := <[0%nat := r0]> (keys w);
         kv := store_after w (kv_key_name 0) (serialize r0) rc;
         stdin := [];
         trace := [EvKvGet (kv_key_name 0) ret value_len;
                   EvKvSet (kv_key_name 0) (serialize r0) rc] |} in
    len r0 = 0 /\
    (ret <> RETURNCODE_SUCCESS \/ value_len <> SIZEOF_HOTP_KEY_T) /\
    load_key demo_env 0 w = program_default_secret demo_env w1.
Proof.
  intros store w.
  apply (load_key_heals_and_programs_default demo_env 0 zero_key w); reflexivity.
Defined.

End Boot.

(** * Further properties of the code *)

Section BoundsAndFormats.

Import Hotp.

Lemma land_mask_range x k : 0 <= k -> 0 <= Z.land x (Z.ones k) < 2 ^ k.
Proof. intros Hk. rewrite Z.land_ones by lia. apply Z.mod_pos_bound. lia. Qed.

(** X1. Whatever the output buffer holds, the dynamic truncation reads
    only inside the 32-byte digest (its offset is at most 15, so the
    last byte read is at index 18 at most) and yields a value below
    2^31. *)
Theorem truncation_stays_inside_digest (hmac_output_buf : list Z) :
  0 <= truncate_offset hmac_output_buf <= 15 /\
  truncate_offset hmac_output_buf + 3 < 32 /\
  0 <= truncate_S hmac_output_buf < 2 ^ 31.
Proof.
  unfold truncate_S, truncate_offset. change (32 - 1) with 31.
  assert (Hoff : 0 <= Z.land (byte_at hmac_output_buf 31) 15 < 2 ^ 4)
    by (apply (land_mask_range _ 4); lia).
  rewrite (u8_byte (Z.land (byte_at hmac_output_buf 31) 15)) by (unfold is_byte; lia).
  set (offset := Z.land (byte_at hmac_output_buf 31) 15) in *.
  split; [lia|]. split; [lia|].
  pose proof (land_mask_range (byte_at hmac_output_buf offset) 7 ltac:(lia)) as H0.
  pose proof (land_mask_range (byte_at hmac_output_buf (offset + 1)) 8 ltac:(lia)) as H1.
  pose proof (land_mask_range (byte_at hmac_output_buf (offset + 2)) 8 ltac:(lia)) as H2.
  pose proof (land_mask_range (byte_at hmac_output_buf (offset + 3)) 8 ltac:(lia)) as H3.
  change (Z.ones 7) with 127 in H0. change (Z.ones 8) with 255 in H1, H2, H3.
  pose proof (shiftl_below _ 24 7 ltac:(lia) ltac:(lia) H0) as S0.
  pose proof (shiftl_below _ 16 8 ltac:(lia) ltac:(lia) H1) as S1.
  pose proof (shiftl_below _ 8 8 ltac:(lia) ltac:(lia) H2) as S2.
  simpl Z.add in S0, S1, S2.
  match goal with |- 0 <= u32 ?v < _ =>
    assert (B : 0 <= v < 2 ^ 31) by (repeat apply lor_below; lia) end.
  rewrite u32_small by lia. exact B.
Qed.



Lemma kv_key_name_injective i j :
  0 <= i -> 0 <= j -> kv_key_name i = kv_key_name j -> i = j.
Proof.
  intros Hi Hj. unfold kv_key_name, format_i.
  replace (i <? 0) with false by lia. replace (j <? 0) with false by lia.
  intros Heq. cbn [String.append] in Heq. injection Heq as Heq.
  destruct (decimal_spec i Hi) as (Hvi & _). destruct (decimal_spec j Hj) as (Hvj & _).
  assert (Hd : decimal i = decimal j) by exact Heq.
  apply (f_equal (decimal_value_from 0)) in Hd. rewrite Hvi, Hvj in Hd. exact Hd.
Qed.

(** X3. Slots have distinct store keys: [save_key] on slot [i] issues
    one write, leaves the slots as they are and never changes the record
    stored for another slot [j]. *)
Theorem save_key_touches_only_its_record (E : Env) (i j : Z) (r : hotp_key_t) (w : world) :
  in_bounds i = true -> keys w !! Z.to_nat i = Some r ->
  0 <= j -> j <> i ->
  exists w', save_key E i w = Done tt w' /\
             keys w' = keys w /\
             kv w' !! kv_key_name j = kv w !! kv_key_name j /\
             length (kv_writes (trace w')) = S (length (kv_writes (trace w))).
Proof.
  intros Hi Hr Hj Hne.
  rewrite (save_key_eq E i r w Hi Hr). eexists. split; [reflexivity|].
  cbn [keys kv trace log with_kv]. split; [reflexivity|].
  assert (Hnames : kv_key_name i <> kv_key_name j).
  { intros Heq. apply Hne. symmetry. apply kv_key_name_injective; auto.
    unfold in_bounds in Hi. lia. }
  split.
  - unfold store_after. destruct (_ =? 0); [|reflexivity].
    apply lookup_insert_ne. exact Hnames.
  - change (?a :: save_errors ?rc) with ([a] ++ save_errors rc).
    rewrite !kv_writes_app. destruct (save_errors_silent
      (kv_set_rc E (trace w) (kv_key_name i) (serialize r))) as [_ ->].
    rewrite !length_app. simpl. lia.
Qed.

Lemma save_key_touches_only_its_record_witness :
  exists w', save_key demo_env 1 (demo_world 5) = Done tt w' /\
             keys w' = keys (demo_world 5) /\
             kv w' !! kv_key_name 0 = kv (demo_world 5) !! kv_key_name 0 /\
             length (kv_writes (trace w')) = 1%nat.
Proof.
  apply (save_key_touches_only_its_record demo_env 1 0 zero_key (demo_world 5));
    try reflexivity; lia.
Defined.

End BoundsAndFormats.

Section HmacDiscipline.

Import Hotp.

Variable E : Env.






End HmacDiscipline.

Section SecretEntry.

Import Hotp.




Lemma read_newkey_eq input i newkey echo :
  read_newkey input i newkey echo =
  if (127 <=? i)%nat then Some (newkey, input, echo)
  else
    match input with
    | [] => None
    | c :: input' =>
        if is_newline c then Some (newkey, input', echo)
        else if isalnum c then
          read_newkey input' (S i) (newkey +:+ String c EmptyString)
                      (echo ++ [EvPrint (MsgEcho (String c EmptyString))])
        else read_newkey input' i newkey echo
    end.
Proof. destruct input; reflexivity. Qed.







Lemma read_newkey_cancel junk : forall nl rest,
  Forall (fun c => isalnum c = false /\ is_newline c = false) junk ->
  is_newline nl = true ->
  read_newkey (junk ++ nl :: rest) 0 EmptyString [] = Some (EmptyString, rest, []).
Proof.
  induction junk as [|c junk IH]; intros nl rest Hjunk Hnl;
    rewrite read_newkey_eq; simpl.
  - rewrite Hnl. reflexivity.
  - inversion Hjunk as [|? ? [Hal Hn] Hjunk']; subst.
    rewrite Hn, Hal. apply IH; assumption.
Qed.

(** X6. Cancelling: when Enter arrives before any letter or digit,
    [program_new_secret] lights and clears the LED, prints "Aborted" and
    changes neither the slots nor the store, for every button index
    (also one past the four slots). *)
Theorem program_new_secret_cancel_changes_nothing
        (E : Env) (slot_num : Z) (w : world) (junk : list ascii) (nl : ascii)
        (rest : list ascii) :
  stdin w = junk ++ nl :: rest ->
  Forall (fun c => isalnum c = false /\ is_newline c = false) junk ->
  is_newline nl = true ->
  program_new_secret E slot_num w
  = Done tt {| keys := keys w; kv := kv w; stdin := rest;
               trace := trace w ++
                 [EvLed true slot_num; EvPrint (MsgProgramPrompt slot_num);
                  EvPrint MsgCancelHint; EvPrint (MsgEcho "\r\n");
                  EvPrint MsgAborted; EvLed false slot_num] |}.
Proof.
  intros Hin Hjunk Hnl.
  unfold program_new_secret, read_line, print, emit, mbind, M_bind, log. simpl.
  rewrite Hin, (read_newkey_cancel junk nl rest Hjunk Hnl). simpl.
  rewrite <- ?app_assoc, ?app_nil_r. reflexivity.
Qed.

Lemma program_new_secret_cancel_changes_nothing_witness :
  program_new_secret demo_env 7
    {| keys := keys (demo_world 5); kv := kv (demo_world 5);
       stdin := [" "; "013"; "a"]%char; trace := [] |}
  = Done tt {| keys := keys (demo_world 5); kv := kv (demo_world 5);
               stdin := ["a"%char];
               trace := [EvLed true 7; EvPrint (MsgProgramPrompt 7);
                         EvPrint MsgCancelHint; EvPrint (MsgEcho "\r\n");
                         EvPrint MsgAborted; EvLed false 7] |}.
Proof.
  apply (program_new_secret_cancel_changes_nothing demo_env 7
           {| keys := keys (demo_world 5); kv := kv (demo_world 5);
              stdin := [" "; "013"; "a"]%char; trace := [] |}
           [" "%char] "013"%char ["a"%char]).
  - reflexivity.
  - repeat constructor.
  - reflexivity.
Defined.

End SecretEntry.

Section Persistence.

Import Hotp.

Variable E : Env.

(** X7. When decoding and encrypting succeed, [program_secret] leaves the
    slot with the ciphertext and iv that [encrypt] produced, the
    returned length (as a [uint8_t]) and counter 0, issues one write of
    exactly that record, and prints "Programmed" whether or not the
    write succeeded. *)
Theorem program_secret_resets_counter_and_saves
        (slot_num : Z) (secret : string) (r : hotp_key_t) (w : world)
        (dret eret : Z) (plaintext out' iv' : list Z) :
  in_bounds slot_num = true ->
  keys w !! Z.to_nat slot_num = Some r ->
  base32_decode E secret = (dret, plaintext) -> 0 <= dret ->
  encrypt E (trace w) plaintext dret (key r) (iv r) = (eret, out', iv') -> 0 <= eret ->
  let r' := {| len := u8 eret; iv := buffer 16 iv'; key := buffer 64 out'; counter := 0 |} in
  let name := kv_key_name slot_num in
  let rc := kv_set_rc E (trace w ++ [EvEncrypt eret]) name (serialize r') in
  program_secret E slot_num secret w
  = Done tt {| keys := <[Z.to_nat slot_num := r']> (keys w);
               kv := store_after w name (serialize r') rc;
               stdin := stdin w;
               trace := trace w ++ [EvEncrypt eret; EvKvSet name (serialize r') rc]
                          ++ save_errors rc ++ [EvPrint (MsgProgrammed secret slot_num)] |}.
Proof.
  intros Hi Hr Hdec Hd Henc He r' name rc.
  pose proof (in_bounds_length _ _ _ Hr) as Hlen.
  unfold program_secret. rewrite Hdec.
  replace (dret <? 0) with false by lia.
  erewrite bind_eq; [|apply wp_eq, (wp_keys_load slot_num r); [assumption..|split; reflexivity]].
  erewrite bind_eq;
    [|apply wp_eq, wp_encrypt_call; intros ? ? ? Henc0; rewrite Henc in Henc0;
      injection Henc0 as <- <- <-; split; reflexivity].
  cbv beta iota.
  erewrite bind_eq; [|apply wp_eq, wp_keys_store; [assumption..|split; reflexivity]].
  replace (eret <? 0) with false by lia.
  erewrite bind_eq;
    [|apply wp_eq, (wp_keys_load slot_num (set_cipher r (buffer 64 out') (buffer 16 iv')));
      [assumption | cbn [keys with_keys log]; apply list_lookup_insert_eq; exact Hlen
      | split; reflexivity]].
  erewrite bind_eq;
    [|apply wp_eq, wp_keys_store;
      [assumption | cbn [keys with_keys log]; rewrite length_insert; exact Hlen
      | split; reflexivity]].
  erewrite bind_eq;
    [|apply (save_key_eq E slot_num r'); [assumption|];
      cbn [keys with_keys log]; apply list_lookup_insert_eq;
      rewrite length_insert; exact Hlen].
  unfold print, emit, with_keys, with_kv, log, store_after. cbn [keys kv stdin trace].
  rewrite list_insert_insert_eq, <- !app_assoc. reflexivity.
Qed.

End Persistence.

Lemma program_secret_resets_counter_and_saves_witness :
  let r' := {| Hotp.len := 16; Hotp.iv := Hotp.buffer 16 (replicate 16 7);
               Hotp.key := Hotp.buffer 64 [153; 37]; Hotp.counter := 0 |} in
  let name := Hotp.kv_key_name 0 in
  Hotp.program_secret Hotp.demo_env 0 "test" (Hotp.demo_world 5)
  = Hotp.Done tt
      {| Hotp.keys := <[0%nat := r']> (Hotp.keys (Hotp.demo_world 5));
         Hotp.kv := store_after (Hotp.demo_world 5) name (Hotp.serialize r') 0;
         Hotp.stdin := [];
         Hotp.trace := [Hotp.EvEncrypt 16; Hotp.EvKvSet name (Hotp.serialize r') 0;
                        Hotp.EvPrint (Hotp.MsgProgrammed "test" 0)] |}.
Proof.
  apply (program_secret_resets_counter_and_saves Hotp.demo_env 0 "test"
           (Hotp.demo_key 5) (Hotp.demo_world 5) 2 16 [153; 37] [153; 37] (replicate 16 7));
    try reflexivity; lia.
Defined.

Section Frames.

Import Hotp.

Variable E : Env.

Lemma osc_refl j w : only_slot_changed j w w.
Proof. unfold only_slot_changed. auto. Qed.

Lemma osc_trans j w1 w2 w3 :
  only_slot_changed j w1 w2 -> only_slot_changed j w2 w3 -> only_slot_changed j w1 w3.
Proof.
  intros (A1 & A2 & A3 & A4) (B1 & B2 & B3 & B4). unfold only_slot_changed.
  split; [congruence|]. split; [intros i Hi; rewrite B2, A2 by exact Hi; reflexivity|].
  split; [intros i Hi Hne; rewrite B3, A3 by assumption; reflexivity|congruence].
Qed.

Lemma osc_log j w w' es : only_slot_changed j w w' -> only_slot_changed j w (log w' es).
Proof. auto. Qed.

Lemma osc_store j w w' r :
  only_slot_changed j w w' ->
  only_slot_changed j w (with_keys w' (<[Z.to_nat j := r]> (keys w'))).
Proof.
  intros (A1 & A2 & A3 & A4). unfold only_slot_changed. cbn [keys kv stdin with_keys].
  split; [rewrite length_insert; exact A1|].
  split; [intros i Hi; rewrite list_lookup_insert_ne by congruence; apply A2; exact Hi|].
  auto.
Qed.

Lemma osc_save j w w' v rc :
  0 <= j ->
  only_slot_changed j w w' ->
  only_slot_changed j w (with_kv w' (store_after w' (kv_key_name j) v rc)).
Proof.
  intros Hj (A1 & A2 & A3 & A4). unfold only_slot_changed. cbn [keys kv stdin with_kv].
  split; [exact A1|]. split; [exact A2|]. split; [|exact A4].
  intros i Hi Hne. unfold store_after. destruct (rc =? 0); [|apply A3; assumption].
  rewrite lookup_insert_ne; [apply A3; assumption|].
  intros Heq. apply Hne. apply kv_key_name_injective; auto.
Qed.

Ltac frame_done :=
  repeat first [apply osc_log | apply osc_store | apply osc_save | apply osc_refl];
  try assumption.

Lemma in_bounds_nonneg j : in_bounds j = true -> 0 <= j.
Proof. unfold in_bounds. lia. Qed.

Lemma wp_keys_load_any i w (Q : hotp_key_t -> world -> Prop) :
  in_bounds i = true -> (Z.to_nat i < length (keys w))%nat ->
  (forall r, keys w !! Z.to_nat i = Some r -> Q r w) ->
  wp (keys_load i) w Q.
Proof.
  intros Hi Hl HQ. destruct (lookup_lt_is_Some_2 _ _ Hl) as [r Hr].
  apply (wp_keys_load i r); auto.
Qed.

Lemma osc_length j w w' :
  only_slot_changed j w w' -> length (keys w') = length (keys w).
Proof. intros (A & _). exact A. Qed.

(** [program_secret] on a slot in range always completes and touches
    nothing but that slot and its stored record. *)
Lemma wp_program_secret_frame slot_num secret w0 w :
  in_bounds slot_num = true -> (Z.to_nat slot_num < length (keys w0))%nat ->
  only_slot_changed slot_num w0 w ->
  wp (program_secret E slot_num secret) w
     (fun _ w' => only_slot_changed slot_num w0 w').
Proof.
  intros Hi Hl0 Hosc. pose proof (in_bounds_nonneg _ Hi) as Hnn.
  assert (Hl : (Z.to_nat slot_num < length (keys w))%nat)
    by (rewrite (osc_length _ _ _ Hosc); exact Hl0).
  unfold program_secret, save_key. destruct (base32_decode E secret) as [dret plaintext].
  destruct (dret <? 0).
  - apply wp_bind, wp_print.
    apply wp_bind, wp_keys_load_any; [assumption..|]. intros r Hr.
    apply wp_keys_store; [assumption..|]. frame_done.
  - apply wp_bind, wp_keys_load_any; [assumption..|]. intros r Hr.
    apply wp_bind, wp_encrypt_call. intros eret out' iv' _.
    apply wp_bind, wp_keys_store; [assumption..|].
    destruct (eret <? 0).
    + apply wp_bind, wp_print. apply wp_bind, wp_print.
      apply wp_bind, wp_keys_load_any;
        [assumption | cbn [keys with_keys log]; rewrite length_insert; exact Hl |].
      intros r1 Hr1.
      apply wp_keys_store;
        [assumption | cbn [keys with_keys log]; rewrite length_insert; exact Hl |].
      frame_done.
    + apply wp_bind, wp_keys_load_any;
        [assumption | cbn [keys with_keys log]; rewrite length_insert; exact Hl |].
      intros r1 Hr1.
      apply wp_bind, wp_keys_store;
        [assumption | cbn [keys with_keys log]; rewrite length_insert; exact Hl |].
      apply wp_bind, wp_bind, wp_keys_load_any;
        [assumption | cbn [keys with_keys log]; rewrite !length_insert; exact Hl |].
      intros r2 Hr2.
      apply wp_bind, wp_kv_set_sync. intros rc _.
      destruct (rc =? 0) eqn:Hrc; cbv beta iota; cbn [negb].
      * apply wp_ret. apply wp_print. frame_done.
      * apply wp_bind, wp_print. apply wp_print. apply wp_print. frame_done.
Qed.

Lemma wp_kv_get_sync name w (Q : Z * list Z * Z -> world -> Prop) :
  (forall ret value value_len,
     match readable_record E w name with
     | Some v => ret = RETURNCODE_SUCCESS /\ value_len = SIZEOF_HOTP_KEY_T /\
                 value = take 89 v
     | None => ret <> RETURNCODE_SUCCESS \/ value_len <> SIZEOF_HOTP_KEY_T
     end ->
     Q (ret, value, value_len) (log w [EvKvGet name ret value_len])) ->
  wp (kv_get_sync E name SIZEOF_HOTP_KEY_T) w Q.
Proof.
  intros HQ. unfold wp, kv_get_sync. unfold readable_record in HQ.
  destruct (Z.eqb_spec (kv_get_rc E (trace w) name) 0) as [Hz|Hnz]; simpl.
  - destruct (kv w !! name) as [v|]; apply HQ.
    + destruct (Z.eqb_spec (u32 (Z.of_nat (length v))) SIZEOF_HOTP_KEY_T); auto.
    + left. discriminate.
  - apply HQ. left. exact Hnz.
Qed.

(** [load_key] on a slot in range always completes, touches nothing but
    that slot and its stored record, and copies a readable record. *)
Lemma wp_load_key j w :
  in_bounds j = true -> (Z.to_nat j < length (keys w))%nat ->
  wp (load_key E j) w
     (fun _ w' =>
        only_slot_changed j w w' /\
        forall v, readable_record E w (kv_key_name j) = Some v ->
                  keys w' !! Z.to_nat j = Some (deserialize (take 89 v)) /\
                  kv w' = kv w).
Proof.
  intros Hi Hl. pose proof (in_bounds_nonneg _ Hi) as Hnn.
  unfold load_key. apply wp_bind, wp_kv_get_sync. intros ret value value_len Hcase.
  cbv beta iota.
  destruct (readable_record E w (kv_key_name j)) as [v|].
  - destruct Hcase as (-> & -> & ->).
    replace (negb (RETURNCODE_SUCCESS =? RETURNCODE_SUCCESS)
             || negb (SIZEOF_HOTP_KEY_T =? SIZEOF_HOTP_KEY_T)) with false by reflexivity.
    apply wp_keys_store; [assumption..|]. split; [frame_done|].
    intros v' [= <-]. cbn [keys kv with_keys log]. split; [|reflexivity].
    apply list_lookup_insert_eq. exact Hl.
  - replace (negb (ret =? RETURNCODE_SUCCESS) || negb (value_len =? SIZEOF_HOTP_KEY_T))
      with true by (unfold RETURNCODE_SUCCESS, SIZEOF_HOTP_KEY_T in *; lia).
    apply wp_bind, wp_keys_load_any; [assumption..|]. intros r Hr.
    apply wp_bind, wp_keys_store; [assumption..|].
    unfold save_key.
    apply wp_bind, wp_bind, wp_keys_load_any;
      [assumption | cbn [keys with_keys log]; rewrite length_insert; exact Hl |].
    intros r1 Hr1.
    apply wp_bind, wp_kv_set_sync. intros rc _.
    assert (Hdefault : forall w1, only_slot_changed j w w1 ->
      wp (if j =? 0 then program_default_secret E else mret tt) w1
         (fun _ w' => only_slot_changed j w w' /\
                      forall v : list Z, None = Some v ->
                        keys w' !! Z.to_nat j = Some (deserialize (take 89 v)) /\
                        kv w' = kv w)).
    { intros w1 Hosc. destruct (Z.eqb_spec j 0) as [->|Hne].
      - unfold program_default_secret.
        apply wp_bind, wp_emit. apply wp_bind.
        eapply wp_mono.
        + apply (wp_program_secret_frame 0 _ w); [reflexivity | exact Hl |].
          frame_done.
        + intros ? w2 Hosc2. apply wp_emit. split; [frame_done|discriminate].
      - apply wp_ret. split; [exact Hosc|discriminate]. }
    destruct (rc =? 0) eqn:Hrc; cbv beta iota; cbn [negb].
    + apply wp_ret. apply Hdefault. frame_done.
    + apply wp_bind, wp_print. apply wp_print. apply Hdefault. frame_done.
Qed.

(** What loading the slots listed in [l] guarantees about slot [i]. *)
Lemma wp_load_each (l : list Z) : forall w,
  Forall (fun j => in_bounds j = true) l -> NoDup l ->
  length (keys w) = 4%nat ->
  wp (for_each l (load_key E)) w
     (fun _ w' =>
        length (keys w') = 4%nat /\ stdin w' = stdin w /\
        forall i, in_bounds i = true ->
          (i ∉ l -> keys w' !! Z.to_nat i = keys w !! Z.to_nat i) /\
          (forall r, i ∈ l ->
             (forall h k, kv_get_rc E h k = 0) ->
             well_formed r ->
             kv w !! kv_key_name i = Some (serialize r) ->
             keys w' !! Z.to_nat i = Some r)).
Proof.
  induction l as [|j l IH]; intros w Hall Hnd Hlen.
  - apply wp_ret. split; [exact Hlen|]. split; [reflexivity|].
    intros i _. split; [reflexivity|]. intros r Hin. apply elem_of_nil in Hin. destruct Hin.
  - inversion Hall as [|? ? Hj Hall']; subst. inversion Hnd as [|? ? Hnotin Hnd']; subst.
    cbn [for_each]. apply wp_bind.
    eapply wp_mono; [apply wp_load_key; [exact Hj|]|].
    { unfold in_bounds, NUM_KEYS in Hj. lia. }
    intros ? w1 [Hosc Hread]. cbv beta.
    destruct Hosc as (O1 & O2 & O3 & O4).
    eapply wp_mono; [apply IH; [exact Hall' | exact Hnd' | congruence]|].
    intros ? w' (L & S & Hslots). cbv beta.
    split; [exact L|]. split; [congruence|].
    intros i Hi. destruct (Hslots i Hi) as [Hout Hin]. split.
    + intros Hni. apply not_elem_of_cons in Hni as [Hne Hni].
      rewrite Hout by exact Hni.
      apply O2. intros Heq. apply Hne.
      unfold in_bounds in Hi, Hj. lia.
    + intros r Hil Hget Hwf Hkv. apply elem_of_cons in Hil as [->|Hil].
      * rewrite Hout by exact Hnotin.
        destruct (Hread (serialize r)) as [-> _].
        -- unfold readable_record. rewrite Hget, Hkv, serialize_length. reflexivity.
        -- rewrite take_ge by (rewrite serialize_length; lia).
           rewrite deserialize_serialize by exact Hwf. reflexivity.
      * apply Hin; auto. rewrite O3; [exact Hkv | unfold in_bounds in Hi; lia |].
        intros ->. contradiction.
Qed.

Lemma initialize_keys_run store input :
  exists w',
    initialize_keys E (boot store input) = Done RETURNCODE_SUCCESS w' /\
    length (keys w') = 4%nat /\ stdin w' = input /\
    forall i r,
      in_bounds i = true ->
      (forall h k, kv_get_rc E h k = 0) ->
      well_formed r ->
      store !! kv_key_name i = Some (serialize r) ->
      keys w' !! Z.to_nat i = Some r.
Proof.
  assert (Hrun : wp (initialize_keys E) (boot store input)
    (fun a w' => a = RETURNCODE_SUCCESS /\ length (keys w') = 4%nat /\ stdin w' = input /\
       forall i r, in_bounds i = true -> (forall h k, kv_get_rc E h k = 0) ->
         well_formed r -> store !! kv_key_name i = Some (serialize r) ->
         keys w' !! Z.to_nat i = Some r)).
  { unfold initialize_keys. apply wp_bind.
    eapply wp_mono.
    - apply wp_load_each; [repeat constructor | apply NoDup_seqZ | reflexivity].
    - intros ? w' (L & S & Hslots). apply wp_ret.
      split; [reflexivity|]. split; [exact L|]. split; [exact S|].
      intros i r Hi Hget Hwf Hkv. destruct (Hslots i Hi) as [_ Hin].
      apply Hin; auto. apply elem_of_seqZ. unfold in_bounds in Hi. lia. }
  apply wp_done in Hrun. destruct Hrun as (a & w' & Heq & -> & L & S & Hslots).
  exists w'. auto.
Qed.

(** X8. Booting never fails: on any store contents and with any driver
    answers, [initialize_keys] returns RETURNCODE_SUCCESS with all four
    slots in place and the console input untouched; no index leaves the
    [keys] array. *)
Theorem initialize_keys_always_completes
        (store : gmap string (list Z)) (input : list ascii) :
  exists w',
    initialize_keys E (boot store input) = Done RETURNCODE_SUCCESS w' /\
    length (keys w') = 4%nat /\ stdin w' = input.
Proof.
  destruct (initialize_keys_run store input) as (w' & Heq & L & S & _).
  exists w'. auto.
Qed.

(** X9. Booting restores what was saved: when reads succeed and the
    store holds the serialised form of a well-formed record under a
    slot's key, [initialize_keys] ends with exactly that record in the
    slot. *)
Theorem initialize_keys_restores_stored_record
        (store : gmap string (list Z)) (input : list ascii) (i : Z) (r : hotp_key_t) :
  (forall h k, kv_get_rc E h k = 0) ->
  in_bounds i = true ->
  well_formed r ->
  store !! kv_key_name i = Some (serialize r) ->
  exists w',
    initialize_keys E (boot store input) = Done RETURNCODE_SUCCESS w' /\
    keys w' !! Z.to_nat i = Some r.
Proof.
  intros Hget Hi Hwf Hkv.
  destruct (initialize_keys_run store input) as (w' & Heq & _ & _ & Hslots).
  exists w'. split; [exact Heq|]. apply Hslots; assumption.
Qed.

(** X10. Saving a slot and loading it again is the identity on the slots:
    with a write and a read that succeed, [save_key] followed by
    [load_key] leaves every slot as it was, and the store holds the
    slot's record. *)
Theorem save_then_load_restores_slot (i : Z) (r : hotp_key_t) (w : world) :
  in_bounds i = true ->
  keys w !! Z.to_nat i = Some r ->
  well_formed r ->
  kv_set_rc E (trace w) (kv_key_name i) (serialize r) = 0 ->
  kv_get_rc E (trace w ++ [EvKvSet (kv_key_name i) (serialize r) 0]) (kv_key_name i) = 0 ->
  exists w',
    (save_key E i ≫= fun _ => load_key E i) w = Done tt w' /\
    keys w' = keys w /\
    kv w' !! kv_key_name i = Some (serialize r).
Proof.
  intros Hi Hr Hwf Hset Hget. pose proof (in_bounds_length _ _ _ Hr) as Hlen.
  rewrite (bind_eq _ _ _ _ _ (save_key_eq E i r w Hi Hr)). rewrite Hset.
  set (w1 := log _ _).
  assert (Hkv1 : kv w1 !! kv_key_name i = Some (serialize r)).
  { unfold w1, store_after. cbn [kv log with_kv Z.eqb]. apply lookup_insert_eq. }
  pose proof (wp_load_key i w1 Hi Hlen) as Hrun. apply wp_done in Hrun.
  destruct Hrun as ([] & w' & Heq & (O1 & O2 & O3 & O4) & Hread).
  exists w'. split; [exact Heq|].
  destruct (Hread (serialize r)) as [Hslot Hkv'].
  { unfold readable_record. unfold w1 at 1. cbn [trace log with_kv save_errors Z.eqb].
    rewrite Hget, Hkv1, serialize_length. reflexivity. }
  rewrite take_ge in Hslot by (rewrite serialize_length; lia).
  rewrite deserialize_serialize in Hslot by exact Hwf.
  split; [|rewrite Hkv'; exact Hkv1].
  apply list_eq. intros n. destruct (Nat.eq_dec n (Z.to_nat i)) as [->|Hne].
  - rewrite Hslot. symmetry. exact Hr.
  - rewrite O2 by exact Hne. reflexivity.
Qed.

(** With a store that accepts every write, [get_next_code] leaves the
    incremented record both in the slot and in the store. *)
Lemma wp_get_next_code_saved slot_num r w :
  in_bounds slot_num = true ->
  keys w !! Z.to_nat slot_num = Some r ->
  (forall h k v, kv_set_rc E h k v = 0) ->
  wp (get_next_code E slot_num) w
     (fun _ w' =>
        let r' := set_counter r (counter r + 1) in
        keys w' = <[Z.to_nat slot_num := r']> (keys w) /\
        kv w' = <[kv_key_name slot_num := serialize r']> (kv w) /\
        stdin w' = stdin w).
Proof.
  intros Hi Hr Hset. pose proof (in_bounds_length _ _ _ Hr) as Hlen.
  destruct (in_bounds_digits _ Hi) as [d Hd].
  unfold get_next_code.
  apply wp_bind, wp_emit.
  apply wp_bind, (wp_keys_load slot_num r); [assumption..|].
  apply wp_bind, wp_decrypt_call. intros keylen out _.
  apply wp_bind, wp_history.
  apply wp_bind, wp_hmac. intros [hret buf] hevs _ _.
  apply wp_bind, (wp_keys_load slot_num r); [assumption..|].
  apply wp_bind, wp_keys_store; [assumption..|].
  apply wp_bind, (wp_save_key E slot_num (set_counter r (counter r + 1)));
    [assumption | cbn [keys with_keys log]; apply list_lookup_insert_eq; exact Hlen |].
  intros rc Hrc. rewrite Hset in Hrc. subst rc.
  apply wp_bind, (wp_key_digits_load slot_num d); [assumption..|].
  destruct (format_code d (truncate_S buf)) as [fbuf flen].
  apply wp_bind, wp_history. apply wp_bind.
  match goal with |- context [usb_exists E ?h] => destruct (usb_exists E h) end.
  - apply wp_bind, wp_history. apply wp_bind, wp_emit.
    match goal with |- context [usb_send_rc E ?h ?c] => destruct (usb_send_rc E h c <? 0) end.
    + apply wp_print, wp_emit. repeat split; reflexivity.
    + apply wp_bind, (wp_keys_load slot_num (set_counter r (counter r + 1)));
        [assumption | cbn [keys with_keys with_kv log]; apply list_lookup_insert_eq;
                      exact Hlen |].
      apply wp_print, wp_emit. repeat split; reflexivity.
  - apply wp_print, wp_emit. repeat split; reflexivity.
Qed.

Lemma set_counter_well_formed r c :
  well_formed r -> well_formed (set_counter r c).
Proof.
  intros (A & B & C & D & F & G). unfold well_formed, set_counter. cbn [len iv key counter].
  split; [exact A|]. split; [exact B|]. split; [exact C|]. split; [exact D|].
  split; [exact F|]. unfold u64, wrap. apply Z.mod_pos_bound. lia.
Qed.

(** X11. The counter survives a power cycle: with a store whose reads and
    writes succeed, after [get_next_code] on a well-formed slot a fresh
    boot from the resulting store loads the slot with the counter
    already incremented, so the code just sent is not produced again. *)
Theorem incremented_counter_survives_reboot
        (slot_num : Z) (r : hotp_key_t) (w : world) (input : list ascii) :
  (forall h k, kv_get_rc E h k = 0) ->
  (forall h k v, kv_set_rc E h k v = 0) ->
  in_bounds slot_num = true ->
  keys w !! Z.to_nat slot_num = Some r ->
  well_formed r ->
  exists w1 w2,
    get_next_code E slot_num w = Done tt w1 /\
    initialize_keys E (boot (kv w1) input) = Done RETURNCODE_SUCCESS w2 /\
    keys w2 !! Z.to_nat slot_num = Some (set_counter r (counter r + 1)) /\
    counter (set_counter r (counter r + 1)) = (counter r + 1) mod 2 ^ 64.
Proof.
  intros Hget Hset Hi Hr Hwf.
  pose proof (wp_get_next_code_saved slot_num r w Hi Hr Hset) as Hrun.
  apply wp_done in Hrun. destruct Hrun as ([] & w1 & Heq & _ & Hkv & _).
  destruct (initialize_keys_run (kv w1) input) as (w2 & Hboot & _ & _ & Hslots).
  exists w1, w2. split; [exact Heq|]. split; [exact Hboot|]. split; [|reflexivity].
  apply Hslots; auto.
  - apply set_counter_well_formed. exact Hwf.
  - rewrite Hkv. apply lookup_insert_eq.
Qed.

End Frames.

Section FramesWitnesses.

Import Hotp.

Lemma demo_key_well_formed c : 0 <= c < 2 ^ 64 -> well_formed (demo_key c).
Proof.
  intros Hc. unfold well_formed, demo_key. cbn [len iv key counter].
  split; [unfold is_byte; lia|]. split; [reflexivity|].
  split; [apply Forall_forall; intros x Hx; apply elem_of_replicate in Hx as [-> _];
          unfold is_byte; lia|].
  split; [apply buffer_length|]. split; [apply buffer_bytes|exact Hc].
Qed.

Lemma initialize_keys_restores_stored_record_witness :
  exists w',
    initialize_keys demo_env (boot (kv (demo_world 5)) []) = Done RETURNCODE_SUCCESS w' /\
    keys w' !! Z.to_nat 0 = Some (demo_key 5).
Proof.
  apply (initialize_keys_restores_stored_record demo_env (kv (demo_world 5)) [] 0 (demo_key 5)).
  - reflexivity.
  - reflexivity.
  - apply demo_key_well_formed. lia.
  - vm_compute. reflexivity.
Defined.

Lemma save_then_load_restores_slot_witness :
  exists w',
    (save_key demo_env 0 ≫= fun _ => load_key demo_env 0) (demo_world 5) = Done tt w' /\
    keys w' = keys (demo_world 5) /\
    kv w' !! kv_key_name 0 = Some (serialize (demo_key 5)).
Proof.
  apply (save_then_load_restores_slot demo_env 0 (demo_key 5) (demo_world 5)).
  - reflexivity.
  - reflexivity.
  - apply demo_key_well_formed. lia.
  - reflexivity.
  - reflexivity.
Defined.

Lemma incremented_counter_survives_reboot_witness :
  exists w1 w2,
    get_next_code demo_env 0 (demo_world 5) = Done tt w1 /\
    initialize_keys demo_env (boot (kv w1) []) = Done RETURNCODE_SUCCESS w2 /\
    keys w2 !! Z.to_nat 0 = Some (set_counter (demo_key 5) (5 + 1)) /\
    counter (set_counter (demo_key 5) (5 + 1)) = (5 + 1) mod 2 ^ 64.
Proof.
  apply (incremented_counter_survives_reboot demo_env 0 (demo_key 5) (demo_world 5) []).
  - reflexivity.
  - reflexivity.
  - reflexivity.
  - reflexivity.
  - apply demo_key_well_formed. lia.
Defined.

End FramesWitnesses.

Section RepeatedPresses.

Import Hotp.

Variable E : Env.

Lemma main_loop_body_generates n prev r d w :
  in_bounds n = true ->
  keys w !! Z.to_nat n = Some r ->
  0 < len r ->
  key_digits !! Z.to_nat n = Some d ->
  exists w1,
    main_loop_body E (short_press n) prev w = Done n w1 /\
    generation E n r d (log w [EvDelayMs 500]) w1.
Proof.
  intros Hi Hr Hlen Hd.
  assert (Hrun : wp (main_loop_body E (short_press n) prev) w
    (fun a w1 => a = n /\ generation E n r d (log w [EvDelayMs 500]) w1)).
  { unfold main_loop_body, button_upcall, short_press. simpl.
    apply wp_bind, wp_bind, wp_emit.
    assert (Hlt : (n <? NUM_KEYS) = true) by (unfold in_bounds in Hi; lia).
    rewrite Hlt.
    apply wp_bind, wp_bind, (wp_keys_load n r); [assumption..|].
    apply wp_ret. replace (len r >? 0) with true by lia.
    eapply wp_mono; [apply (get_next_code_run E n r d); assumption|].
    intros ? w1 Hgen. apply wp_ret. split; [reflexivity|exact Hgen]. }
  apply wp_done in Hrun. destruct Hrun as (a & w1 & Heq & -> & Hgen).
  exists w1. split; assumption.
Qed.

(** X12. [k] short presses on a configured slot in range send [k] codes
    and advance that slot's counter by [k] (modulo 2^64), leaving its
    key and the other slots alone; afterwards the loop is suspended
    waiting for the next press. *)
Theorem short_presses_advance_counter (n : Z) (k : nat) :
  forall (prev : Z) (r : hotp_key_t) (w : world),
  in_bounds n = true ->
  keys w !! Z.to_nat n = Some r ->
  0 < len r ->
  0 <= counter r < 2 ^ 64 ->
  exists w' r',
    main_loop E (replicate k (short_press n)) prev w = Blocked w' /\
    keys w' !! Z.to_nat n = Some r' /\
    counter r' = (counter r + Z.of_nat k) mod 2 ^ 64 /\
    len r' = len r /\ key r' = key r /\ iv r' = iv r /\
    (forall j : nat, j <> Z.to_nat n -> keys w' !! j = keys w !! j) /\
    length (emitted_codes (trace w')) = (length (emitted_codes (trace w)) + k)%nat.
Proof.
  induction k as [|k IH]; intros prev r w Hi Hr Hlen Hc.
  - exists w, r. cbn [replicate main_loop]. split; [reflexivity|].
    split; [exact Hr|]. rewrite Z.add_0_r, Z.mod_small by lia.
    repeat split; auto.
  - destruct (in_bounds_digits _ Hi) as [d Hd].
    destruct (main_loop_body_generates n prev r d w Hi Hr Hlen Hd) as (w1 & Hbody & Hgen).
    destruct Hgen as (keylen & key0 & res & hevs & rc & out_evs & Hgen).
    cbv zeta in Hgen.
    destruct Hgen as (_ & _ & Hevs & Hout & Hkeys & _ & _ & Htr).
    cbn [keys trace log] in Hkeys, Htr.
    set (r1 := set_counter r (counter r + 1)) in *.
    assert (Hr1 : keys w1 !! Z.to_nat n = Some r1).
    { rewrite Hkeys. eapply list_lookup_insert_same. exact Hr. }
    assert (Hc1 : 0 <= counter r1 < 2 ^ 64).
    { unfold r1, set_counter, u64, wrap. cbn [counter]. apply Z.mod_pos_bound. lia. }
    destruct (IH n r1 w1 Hi Hr1 Hlen Hc1)
      as (w' & r' & Hloop & Hslot & Hcnt & Hl & Hk & Hiv & Hothers & Hcodes).
    exists w', r'. cbn [replicate main_loop].
    split; [rewrite (bind_eq _ _ _ _ _ Hbody); exact Hloop|].
    split; [exact Hslot|].
    split.
    { rewrite Hcnt. unfold r1, set_counter, u64, wrap. cbn [counter].
      rewrite Zplus_mod_idemp_l. f_equal. lia. }
    split; [exact Hl|]. split; [exact Hk|]. split; [exact Hiv|].
    split.
    { intros j Hj. rewrite Hothers by exact Hj. rewrite Hkeys.
      apply list_lookup_insert_ne. congruence. }
    rewrite Hcodes, Htr.
    destruct (hmac_events_silent _ Hevs) as [Hs1 _].
    destruct (save_errors_silent rc) as [Hs3 _].
    destruct (emission_of_codes _ _ Hout) as [Hs5 _].
    rewrite !emitted_codes_app, Hs1, Hs3, Hs5. cbn [emitted_codes app].
    rewrite !length_app. cbn [length]. lia.
Qed.

End RepeatedPresses.

Lemma short_presses_advance_counter_witness :
  exists w' r',
    Hotp.main_loop Hotp.demo_env (replicate 3 (short_press 0)) 0 (Hotp.demo_world 5)
      = Hotp.Blocked w' /\
    Hotp.keys w' !! Z.to_nat 0 = Some r' /\
    Hotp.counter r' = (5 + Z.of_nat 3) mod 2 ^ 64 /\
    Hotp.len r' = 16 /\ Hotp.key r' = Hotp.key (Hotp.demo_key 5) /\
    Hotp.iv r' = Hotp.iv (Hotp.demo_key 5) /\
    (forall j : nat, j <> Z.to_nat 0 ->
       Hotp.keys w' !! j = Hotp.keys (Hotp.demo_world 5) !! j) /\
    length (emitted_codes (Hotp.trace w')) = (0 + 3)%nat.
Proof.
  apply (short_presses_advance_counter Hotp.demo_env 0 3 0 (Hotp.demo_key 5)
           (Hotp.demo_world 5)).
  - reflexivity.
  - reflexivity.
  - simpl. lia.
  - simpl. lia.
Defined.

Section AlarmFurther.

Import Alarm.

(** X13. [ms_to_ticks] never returns a wrapped value: for 32-bit inputs
    its 64-bit arithmetic cannot overflow, it returns the exact sum
    [(ms / 10) * f + ((ms mod 1000) * f) / 1000] when that fits in 32
    bits, and the assertion stops the program otherwise. *)
Theorem ms_to_ticks_exact_or_aborts (frequency ms : Z) :
  0 <= frequency < 2 ^ 32 -> 0 <= ms < 2 ^ 32 ->
  let ticks := (ms / 10) * frequency + ((ms mod 1000) * frequency) / 1000 in
  ms_to_ticks frequency ms = if ticks <=? UINT32_MAX then Some ticks else None.
Proof.
  intros Hf Hms ticks. unfold ms_to_ticks.
  assert (H10 : 0 <= ms / 10 < 2 ^ 29).
  { split; [apply Z.div_pos; lia|]. apply Z.div_lt_upper_bound; lia. }
  assert (Hm : 0 <= ms mod 1000 < 1000) by (apply Z.mod_pos_bound; lia).
  rewrite (u32_small (ms / 10)) by lia.
  rewrite (u32_small (ms mod 1000)) by lia.
  assert (Hp : 0 <= ms / 10 * frequency < 2 ^ 61).
  { split; [apply Z.mul_nonneg_nonneg; lia|].
    change (2 ^ 61) with (2 ^ 29 * 2 ^ 32). apply Z.mul_lt_mono_nonneg; lia. }
  assert (Hq : 0 <= ms mod 1000 * frequency < 2 ^ 42).
  { split; [apply Z.mul_nonneg_nonneg; lia|].
    change (2 ^ 42) with (2 ^ 10 * 2 ^ 32). apply Z.mul_lt_mono_nonneg; lia. }
  rewrite (u64_small (ms / 10 * frequency)) by lia.
  rewrite (u64_small (ms mod 1000 * frequency)) by lia.
  assert (Hd : 0 <= ms mod 1000 * frequency / 1000 < 2 ^ 42).
  { split; [apply Z.div_pos; lia|]. apply Z.div_lt_upper_bound; lia. }
  rewrite u64_small by lia. fold ticks.
  destruct (Z.leb_spec ticks UINT32_MAX) as [Hle|Hgt]; [|reflexivity].
  rewrite u32_small; [reflexivity|]. unfold UINT32_MAX in Hle. unfold ticks in *. lia.
Qed.

Lemma ms_to_ticks_exact_or_aborts_witness :
  ms_to_ticks 32768 4294967295 = None /\ ms_to_ticks 32768 7 = Some 229.
Proof.
  split.
  - apply (ms_to_ticks_exact_or_aborts 32768 4294967295); lia.
  - apply (ms_to_ticks_exact_or_aborts 32768 7); lia.
Defined.

Lemma wait_loop_suffix sched : forall s rc s' rest,
  wait_loop sched s = Some (rc, s', rest) ->
  exists used, sched = used ++ rest.
Proof.
  induction sched as [|u sched IH]; intros s rc s' rest; simpl.
  - destruct (cond s); simpl; [|destruct (fired s)]; intros [= <- <- <-] || discriminate;
      exists []; reflexivity.
  - destruct (cond s); simpl; [intros [= <- <- <-]; exists []; reflexivity|].
    destruct (fired s); [intros [= <- <- <-]; exists []; reflexivity|].
    intros Hrun. apply IH in Hrun. destruct Hrun as [used ->].
    exists (u :: used). reflexivity.
Qed.

Lemma wait_loop_suspended sched : forall s,
  cond s = false -> fired s = false ->
  Forall (fun u => u = UpOther \/ u = UpCond false) sched ->
  wait_loop sched s = None.
Proof.
  induction sched as [|u sched IH]; intros s Hc Hf Hall; simpl; rewrite Hc, Hf; simpl.
  - reflexivity.
  - inversion Hall as [|? ? Hu Hall']; subst.
    apply IH; [| |exact Hall']; destruct Hu as [->| ->]; simpl; auto.
Qed.

(** X14. [libtocksync_alarm_yield_for_with_timeout] does not return on
    its own: while neither the timer fires nor [*cond] is set (and
    [*cond] starts false) the caller stays suspended, whatever stale
    value [fired] had; and when it returns it has consumed a prefix of
    the pending callbacks and left the rest untouched. *)
Theorem yield_for_with_timeout_waits (sched : list upcall) (s : bridge) :
  (cond s = false ->
   Forall (fun u => u = UpOther \/ u = UpCond false) sched ->
   libtocksync_alarm_yield_for_with_timeout sched s = None) /\
  (forall rc s' rest,
     libtocksync_alarm_yield_for_with_timeout sched s = Some (rc, s', rest) ->
     exists used, sched = used ++ rest).
Proof.
  unfold libtocksync_alarm_yield_for_with_timeout. split.
  - intros Hc Hall. apply wait_loop_suspended; simpl; auto.
  - intros rc s' rest. apply wait_loop_suffix.
Qed.

Lemma yield_for_with_timeout_waits_witness :
  libtocksync_alarm_yield_for_with_timeout [UpOther; UpCond false; UpOther]
    {| cond := false; fired := true; alarm_pending := false |} = None.
Proof.
  apply (yield_for_with_timeout_waits [UpOther; UpCond false; UpOther]
           {| cond := false; fired := true; alarm_pending := false |}).
  - reflexivity.
  - constructor; [left; reflexivity|]. constructor; [right; reflexivity|].
    constructor; [left; reflexivity|]. constructor.
Defined.

End AlarmFurther.

Section ProximityProperties.

Import Proximity.

Variable T : tock.
Variable E : Env.

Lemma u8_int32 v : u8 (int32 v) = v mod 256.
Proof.
  unfold u8, wrap, int32.
  change (2 ^ 8) with 256. change (2 ^ 32) with 4294967296.
  change (2 ^ 31) with 2147483648.
  Z.div_mod_to_equations. lia.
Qed.

Lemma yield_for_fired_skips pre : forall reading post d,
  fired d = false ->
  Forall (fun u => u = UpOther) pre ->
  yield_for_fired (pre ++ UpProximity reading :: post) true d = Some (cb reading d, post).
Proof.
  induction pre as [|u pre IH]; intros reading post d Hf Hpre; simpl; rewrite Hf.
  - destruct post; reflexivity.
  - inversion Hpre as [|? ? -> Hpre']; subst. simpl. apply IH; assumption.
Qed.

Lemma yield_for_fired_waits sched : forall registered d,
  fired d = false ->
  Forall (fun u => u = UpOther) sched ->
  yield_for_fired sched registered d = None.
Proof.
  induction sched as [|u sched IH]; intros registered d Hf Hall; simpl; rewrite Hf.
  - reflexivity.
  - inversion Hall as [|? ? -> Hall']; subst. simpl. apply IH; assumption.
Qed.

(** X15. [proximity_read_sync] reports the reading of the first
    proximity callback delivered after the read was started, as a
    [uint8_t], and not a value left over from an earlier read; with no
    such callback among the pending ones the caller stays suspended. *)
Theorem proximity_read_sync_returns_fresh_reading
        (st : state) (error data0 : Z) :
  0 <= TOCK_SUCCESS T ->
  subscribe2 E (trace st) = (true, error) ->
  command2 E (trace st ++ [EvSubscribe true error]) 1 0 0 = (TOCK_SYSCALL_SUCCESS T, data0) ->
  (forall pre reading post,
     pending st = pre ++ UpProximity reading :: post ->
     Forall (fun u => u = UpOther) pre ->
     exists st',
       proximity_read_sync T E st = Some (0, Some (reading mod 256), st') /\
       pending st' = post /\ threshes st' = threshes st /\
       result st' = cb reading (result st)) /\
  (Forall (fun u => u = UpOther) (pending st) ->
   proximity_read_sync T E st = None).
Proof.
  intros Hok Hsub Hcom.
  unfold proximity_read_sync, read_sync, proximity_set_callback, proximity_read,
    command_status, set_fired.
  cbn [trace threshes result cb_registered pending]. rewrite Hsub.
  replace (TOCK_SUCCESS T <? 0) with false by lia.
  cbn [trace threshes result cb_registered pending]. rewrite Hcom, Z.eqb_refl.
  replace (TOCK_SUCCESS T <? 0) with false by lia.
  cbn [trace threshes result cb_registered pending]. split.
  - intros pre reading post Hp Hpre. rewrite Hp.
    rewrite yield_for_fired_skips by (auto; reflexivity).
    cbv beta iota. unfold cb at 1. cbn [proximity]. rewrite u8_int32.
    eexists. split; [reflexivity|]. repeat split; reflexivity.
  - intros Hall. rewrite yield_for_fired_waits by (auto; reflexivity). reflexivity.
Qed.

(** X16. [proximity_read_sync] gives up early on failure: when the
    subscription is refused it returns the converted error without
    issuing the read command, and when the command reports a success
    type above [TOCK_SYSCALL_SUCCESS] it returns [TOCK_FAIL] without
    waiting; in both cases nothing is stored through [proximity] and no
    pending callback is consumed. *)
Theorem proximity_read_sync_fails_early (st : state) :
  (forall error,
     subscribe2 E (trace st) = (false, error) ->
     tock_error_to_rcode T error < 0 ->
     exists st',
       proximity_read_sync T E st = Some (tock_error_to_rcode T error, None, st') /\
       trace st' = trace st ++ [EvSubscribe false error] /\
       pending st' = pending st) /\
  (forall error type data0,
     subscribe2 E (trace st) = (true, error) ->
     0 <= TOCK_SUCCESS T -> TOCK_FAIL T < 0 ->
     command2 E (trace st ++ [EvSubscribe true error]) 1 0 0 = (type, data0) ->
     TOCK_SYSCALL_SUCCESS T < type ->
     exists st',
       proximity_read_sync T E st = Some (TOCK_FAIL T, None, st') /\
       pending st' = pending st).
Proof.
  unfold proximity_read_sync, read_sync, proximity_set_callback, proximity_read,
    command_status, set_fired.
  cbn [trace threshes result cb_registered pending]. split.
  - intros error Hsub Hneg. rewrite Hsub.
    replace (tock_error_to_rcode T error <? 0) with true by lia.
    eexists. split; [reflexivity|]. split; reflexivity.
  - intros error type data0 Hsub Hok Hfail Hcom Htype. rewrite Hsub.
    replace (TOCK_SUCCESS T <? 0) with false by lia.
    cbn [trace threshes result cb_registered pending]. rewrite Hcom.
    replace (type =? TOCK_SYSCALL_SUCCESS T) with false by lia.
    replace (type >? TOCK_SYSCALL_SUCCESS T) with true by lia.
    replace (TOCK_FAIL T <? 0) with true by lia.
    eexists. split; reflexivity.
Qed.

(** X17. The thresholds handed to the driver by
    [proximity_read_on_interrupt] are those of the latest
    [proximity_set_interrupt_thresholds], reduced to [uint8_t]; before
    any such call they are 0 and 175. *)
Theorem read_on_interrupt_uses_latest_thresholds
        (lower upper : Z) (st : state) (sched : list upcall) :
  (let st1 := (proximity_set_interrupt_thresholds lower upper st).2 in
   let '(type, data0) := command2 E (trace st) 2 (lower mod 256) (upper mod 256) in
   trace (proximity_read_on_interrupt T E st1).2
   = trace st ++ [EvCommand 2 (lower mod 256) (upper mod 256) type data0]) /\
  (let '(type, data0) := command2 E [] 2 0 175 in
   trace (proximity_read_on_interrupt T E (initial sched)).2
   = [EvCommand 2 0 175 type data0]).
Proof.
  unfold proximity_read_on_interrupt, command_status, proximity_set_interrupt_thresholds.
  cbn [snd trace threshes lower_threshold higher_threshold initial].
  unfold u8, wrap. change (2 ^ 8) with 256. split.
  - destruct (command2 E (trace st) 2 (lower mod 256) (upper mod 256)) as [type data0].
    destruct (type =? _); [reflexivity|]. destruct (type >? _); reflexivity.
  - destruct (command2 E [] 2 0 175) as [type data0].
    destruct (type =? _); [reflexivity|]. destruct (type >? _); reflexivity.
Qed.

End ProximityProperties.

Lemma proximity_read_sync_returns_fresh_reading_witness :
  let st := {| Proximity.threshes := Proximity.threshes (Proximity.initial []);
               Proximity.result := {| Proximity.fired := true; Proximity.proximity := 9 |};
               Proximity.cb_registered := false;
               Proximity.pending := [Proximity.UpOther; Proximity.UpProximity 300;
                                     Proximity.UpProximity 5];
               Proximity.trace := [] |} in
  exists st',
    Proximity.proximity_read_sync Proximity.libtock_values Proximity.working_driver st
      = Some (0, Some 44, st') /\
    Proximity.pending st' = [Proximity.UpProximity 5].
Proof.
  intros st.
  destruct (proximity_read_sync_returns_fresh_reading
              Proximity.libtock_values Proximity.working_driver st 0 0) as [Hret _].
  - simpl. lia.
  - reflexivity.
  - reflexivity.
  - destruct (Hret [Proximity.UpOther] 300 [Proximity.UpProximity 5])
      as (st' & Hrun & Hp & _).
    + reflexivity.
    + repeat constructor.
    + exists st'. split; [exact Hrun|exact Hp].
Defined.

Lemma proximity_read_sync_fails_early_witness :
  let refusing : Proximity.Env :=
    {| Proximity.subscribe2 := fun _ => (false, 2);
       Proximity.command2 := fun _ _ _ _ => (128, 0) |} in
  let odd : Proximity.Env :=
    {| Proximity.subscribe2 := fun _ => (true, 0);
       Proximity.command2 := fun _ _ _ _ => (129, 0) |} in
  (exists st', Proximity.proximity_read_sync Proximity.libtock_values refusing
                 (Proximity.initial [Proximity.UpProximity 1])
               = Some (-2, None, st') /\
               Proximity.pending st' = [Proximity.UpProximity 1]) /\
  (exists st', Proximity.proximity_read_sync Proximity.libtock_values odd
                 (Proximity.initial [Proximity.UpProximity 1])
               = Some (-1, None, st') /\
               Proximity.pending st' = [Proximity.UpProximity 1]).
Proof.
  intros refusing odd. split.
  - destruct (proximity_read_sync_fails_early Proximity.libtock_values refusing
                (Proximity.initial [Proximity.UpProximity 1])) as [Hsub _].
    destruct (Hsub 2) as (st' & Hrun & _ & Hp).
    + reflexivity.
    + simpl. lia.
    + exists st'. split; [exact Hrun|exact Hp].
  - destruct (proximity_read_sync_fails_early Proximity.libtock_values odd
                (Proximity.initial [Proximity.UpProximity 1])) as [_ Hcom].
    destruct (Hcom 0 129 0) as (st' & Hrun & Hp).
    + reflexivity.
    + simpl. lia.
    + simpl. lia.
    + reflexivity.
    + simpl. lia.
    + exists st'. split; [exact Hrun|exact Hp].
Defined.

Section ServoProperties.

Import Servo.

Variable E : Env.

Lemma commanded_app a b : commanded (a ++ b) = commanded a ++ commanded b.
Proof.
  induction a as [|e a IH]; [reflexivity|].
  destruct e; simpl; rewrite IH; reflexivity.
Qed.

Lemma delays_app a b : delays (a ++ b) = delays a ++ delays b.
Proof.
  induction a as [|e a IH]; [reflexivity|].
  destruct e as [| |[]|]; simpl; rewrite IH; reflexivity.
Qed.

Lemma u16_small x : 0 <= x < 65536 -> u16 x = x.
Proof. intros H. unfold u16, wrap. apply Z.mod_small. exact H. Qed.

Lemma seqZ_snoc_succ (i : Z) (k : nat) :
  i :: seqZ (i + 1) (Z.of_nat k) = seqZ i (Z.of_nat (S k)).
Proof.
  rewrite (seqZ_cons i (Z.of_nat (S k))) by lia.
  f_equal. f_equal; lia.
Qed.



Lemma sweep_complete t remaining : forall i tr,
  0 <= i -> i + Z.of_nat remaining <= 65536 ->
  (forall h index angle, libtock_servo_angle E h index angle = RETURNCODE_SUCCESS) ->
  Alarm.ms_to_ticks (frequency E) 100 = Some t ->
  exists tr',
    sweep E remaining i tr = (Returned 0, tr') /\
    commanded tr' = commanded tr ++ seqZ i (Z.of_nat remaining) /\
    delays tr' = delays tr ++ replicate remaining t.
Proof.
  induction remaining as [|n IH]; intros i tr Hi Hmax Hok Hticks; cbn [sweep].
  - exists tr. rewrite !app_nil_r. auto.
  - rewrite (u16_small i) by lia. rewrite Hok. cbn [Z.eqb RETURNCODE_SUCCESS].
    unfold Alarm.libtocksync_alarm_delay_ms. rewrite Hticks.
    set (d := if negb _ then _ else _).
    assert (Hd : exists waited rc, d = Alarm.DelayReturned t waited rc).
    { unfold d. destruct (negb _); [eauto|]. destruct (negb _); eauto. }
    destruct Hd as (waited & rc & ->).
    destruct (libtock_current_servo_angle E _ 0) as [cret angle].
    match goal with |- context [sweep E n (i + 1) ?tr1] =>
      destruct (IH (i + 1) tr1 ltac:(lia) ltac:(lia) Hok Hticks) as (tr' & Hrun & Hc & Hd);
      exists tr'; split; [exact Hrun|];
      rewrite Hc, Hd; rewrite <- seqZ_snoc_succ
    end.
    destruct (cret =? RETURNCODE_SUCCESS);
      rewrite !commanded_app, !delays_app; simpl;
      rewrite ?app_nil_r, <- ?app_assoc; simpl; auto.
Qed.

(** X19. With a servo that accepts every command, [main] commands each
    angle from 0 to 180 exactly once, in order, waits after each one
    for the tick count that [ms_to_ticks] gives for 100 ms, and returns
    0. *)
Theorem servo_sweep_completes (t : Z) :
  libtock_servo_exists E = true ->
  (forall h index angle, libtock_servo_angle E h index angle = RETURNCODE_SUCCESS) ->
  Alarm.ms_to_ticks (frequency E) 100 = Some t ->
  exists tr,
    main E = (Returned 0, tr) /\
    commanded tr = seqZ 0 181 /\
    delays tr = replicate 181 t.
Proof.
  intros Hex Hok Hticks. unfold main. rewrite Hex. cbn [negb].
  destruct (sweep_complete t 181 0 [] ltac:(lia) ltac:(lia) Hok Hticks)
    as (tr & Hrun & Hc & Hd).
  exists tr. auto.
Qed.

End ServoProperties.


Lemma servo_sweep_completes_witness :
  exists tr,
    Servo.main Servo.obedient = (Servo.Returned 0, tr) /\
    Servo.commanded tr = seqZ 0 181 /\
    Servo.delays tr = replicate 181 330956.
Proof.
  apply (servo_sweep_completes Servo.obedient 330956); reflexivity.
Defined.

Section CounterBytesAndButtons.

Import Hotp.

(** X20. The eight bytes hashed for a counter determine it: read most
    significant byte first they give the counter back, so two different
    counters never yield the same HMAC input. *)
Theorem moving_factor_identifies_counter (c1 c2 : Z) :
  0 <= c1 < 2 ^ 64 -> 0 <= c2 < 2 ^ 64 ->
  be_value (moving_factor_of c1) = c1 /\
  length (moving_factor_of c1) = 8%nat /\
  (moving_factor_of c1 = moving_factor_of c2 -> c1 = c2).
Proof.
  intros H1 H2.
  destruct (moving_factor_big_endian c1 H1) as (V1 & L1 & _).
  destruct (moving_factor_big_endian c2 H2) as (V2 & _ & _).
  split; [exact V1|]. split; [exact L1|].
  intros Heq. rewrite <- V1, <- V2, Heq. reflexivity.
Qed.

Lemma moving_factor_identifies_counter_witness :
  be_value (moving_factor_of 258) = 258 /\
  length (moving_factor_of 258) = 8%nat /\
  (moving_factor_of 258 = moving_factor_of (2 ^ 64 - 1) -> 258 = 2 ^ 64 - 1).
Proof. apply (moving_factor_identifies_counter 258 (2 ^ 64 - 1)); lia. Defined.

Lemma for_each_emit (f : Z -> event) (l : list Z) : forall w,
  for_each l (fun i => emit (f i)) w = Done tt (log w (f <$> l)).
Proof.
  induction l as [|i l IH]; intros w; cbn [for_each].
  - unfold mret, M_ret. rewrite log_nil. reflexivity.
  - unfold mbind, M_bind, emit at 1. rewrite IH, log_log. reflexivity.
Qed.

Lemma enabled_buttons_app a b :
  enabled_buttons (a ++ b) = enabled_buttons a ++ enabled_buttons b.
Proof.
  induction a as [|e a IH]; [reflexivity|].
  destruct e; cbn [app enabled_buttons]; rewrite IH; reflexivity.
Qed.

Lemma console_app a b : console (a ++ b) = console a ++ console b.
Proof.
  induction a as [|e a IH]; [reflexivity|].
  destruct e; cbn [app console]; rewrite IH; reflexivity.
Qed.

Lemma enabled_buttons_enable (l : list Z) :
  enabled_buttons (EvButtonEnable <$> l) = l /\ console (EvButtonEnable <$> l) = [].
Proof.
  induction l as [|i l [IH1 IH2]]; [split; reflexivity|].
  cbn [fmap list_fmap enabled_buttons console].
  split; [f_equal; exact IH1 | exact IH2].
Qed.

(** X21. [initialize_buttons] always returns, touching neither the slots,
    the store, the console input nor the console output.  It returns
    RETURNCODE_SUCCESS exactly when both subscribing and counting
    succeed, and then has enabled the interrupt of every button the
    driver counts, once each and in order, whatever their number (also
    more than the four slots); when it returns an error it has enabled
    none. *)
Theorem initialize_buttons_enables_all_counted (E : Env) (w : world) :
  exists rc w',
    initialize_buttons E w = Done rc w' /\
    keys w' = keys w /\ kv w' = kv w /\ stdin w' = stdin w /\
    console (trace w') = console (trace w) /\
    (rc = RETURNCODE_SUCCESS <->
     button_subscribe_rc E = RETURNCODE_SUCCESS /\
     (button_count E).1 = RETURNCODE_SUCCESS) /\
    enabled_buttons (trace w')
    = enabled_buttons (trace w)
      ++ (if rc =? RETURNCODE_SUCCESS then seqZ 0 (button_count E).2 else []) /\
    (forall i, i ∈ enabled_buttons (trace w') <->
               i ∈ enabled_buttons (trace w) \/
               (rc = RETURNCODE_SUCCESS /\ 0 <= i < (button_count E).2)).
Proof.
  unfold initialize_buttons. destruct (button_count E) as [err count].
  cbn [fst snd]. unfold RETURNCODE_SUCCESS.
  destruct (Z.eqb_spec (button_subscribe_rc E) 0) as [Hs|Hs]; cbn [negb].
  2:{ exists (button_subscribe_rc E), w.
      destruct (Z.eqb_spec (button_subscribe_rc E) 0) as [?|_]; [contradiction|].
      rewrite app_nil_r. repeat split; try reflexivity; try tauto. }
  destruct (Z.eqb_spec err 0) as [He|He]; cbn [negb].
  2:{ exists err, w.
      destruct (Z.eqb_spec err 0) as [?|_]; [contradiction|].
      rewrite app_nil_r. repeat split; try reflexivity; try tauto. }
  exists 0, (log w (EvButtonEnable <$> seqZ 0 count)).
  destruct (enabled_buttons_enable (seqZ 0 count)) as [Hb Hc].
  unfold mbind, M_bind. rewrite for_each_emit.
  cbn [log trace keys kv stdin Z.eqb].
  rewrite enabled_buttons_app, console_app, Hb, Hc, app_nil_r.
  repeat split; try reflexivity; try assumption.
  - rewrite elem_of_app, elem_of_seqZ. intros [?|?]; [left; assumption | right; split; [reflexivity | lia]].
  - rewrite elem_of_app, elem_of_seqZ. intros [?|[_ ?]]; [left; assumption | right; lia].
Qed.

End CounterBytesAndButtons.

Section ProximityInterruptReads.

Import Proximity.

Variable T : tock.
Variable E : Env.

(** X22. Setting the thresholds and then reading on interrupt: when the
    subscription and the command succeed,
    [proximity_read_on_interrupt_sync] subscribes first, then issues
    command 2 with the two thresholds just set (as [uint8_t]), and
    reports the reading of the first proximity callback delivered after
    that, as a [uint8_t]; the thresholds stay set and the later
    callbacks stay pending. *)
Theorem interrupt_read_sync_after_thresholds
        (lower upper : Z) (st : state) (error data0 : Z)
        (pre : list upcall) (reading : Z) (post : list upcall) :
  0 <= TOCK_SUCCESS T ->
  subscribe2 E (trace st) = (true, error) ->
  command2 E (trace st ++ [EvSubscribe true error]) 2 (lower mod 256) (upper mod 256)
  = (TOCK_SYSCALL_SUCCESS T, data0) ->
  pending st = pre ++ UpProximity reading :: post ->
  Forall (fun u => u = UpOther) pre ->
  exists st',
    proximity_read_on_interrupt_sync T E (proximity_set_interrupt_thresholds lower upper st).2
    = Some (0, Some (reading mod 256), st') /\
    trace st' = trace st ++ [EvSubscribe true error;
                             EvCommand 2 (lower mod 256) (upper mod 256)
                                       (TOCK_SYSCALL_SUCCESS T) data0] /\
    pending st' = post /\
    threshes st' = {| lower_threshold := lower mod 256; higher_threshold := upper mod 256 |}.
Proof.
  intros Hok Hsub Hcom Hp Hpre.
  unfold proximity_read_on_interrupt_sync, read_sync, proximity_set_callback,
    proximity_read_on_interrupt, command_status, set_fired,
    proximity_set_interrupt_thresholds.
  cbn [snd trace threshes result cb_registered pending lower_threshold higher_threshold].
  rewrite Hsub.
  replace (TOCK_SUCCESS T <? 0) with false by lia.
  cbn [trace threshes result cb_registered pending lower_threshold higher_threshold].
  unfold u8 at 1 2 3 4, wrap. change (2 ^ 8) with 256.
  rewrite Hcom, Z.eqb_refl.
  replace (TOCK_SUCCESS T <? 0) with false by lia.
  cbn [trace threshes result cb_registered pending]. rewrite Hp.
  rewrite yield_for_fired_skips by (auto; reflexivity).
  cbv beta iota. unfold cb at 1. cbn [proximity]. rewrite u8_int32.
  eexists. split; [reflexivity|].
  cbn [trace threshes result cb_registered pending].
  rewrite <- app_assoc. repeat split; reflexivity.
Qed.

End ProximityInterruptReads.

Lemma interrupt_read_sync_after_thresholds_witness :
  exists st',
    Proximity.proximity_read_on_interrupt_sync Proximity.libtock_values Proximity.working_driver
      (Proximity.proximity_set_interrupt_thresholds 300 200
         (Proximity.initial [Proximity.UpOther; Proximity.UpProximity 77])).2
    = Some (0, Some 77, st') /\
    Proximity.trace st' = [Proximity.EvSubscribe true 0; Proximity.EvCommand 2 44 200 128 0] /\
    Proximity.pending st' = [] /\
    Proximity.threshes st' = {| Proximity.lower_threshold := 44;
                                Proximity.higher_threshold := 200 |}.
Proof.
  apply (interrupt_read_sync_after_thresholds
           Proximity.libtock_values Proximity.working_driver 300 200
           (Proximity.initial [Proximity.UpOther; Proximity.UpProximity 77]) 0 0
           [Proximity.UpOther] 77 []).
  - simpl. lia.
  - reflexivity.
  - reflexivity.
  - reflexivity.
  - repeat constructor.
Defined.
